(** * Box-matching evaluation metrics: a shallow embedding of
      [deepforest/evaluate.py]

    The three functions of the module ([evaluate_image],
    [compute_class_recall], [evaluate]) are embedded as functions over
    lists of records.

    Modelling conventions.
    - A pandas table is the list of its rows, in row order.  The caller's
      tables carry the default positional index 0, 1, 2, ...
    - A Python exception is a value of [exn]; a computation that may raise
      is a [pyresult].
    - A Python float is the rational number it denotes.  Comparisons of
      floats are exact, so they are comparisons in [Q]; a true division of
      two integers is kept as the exact quotient (its rounding to the
      nearest double is not modelled).  The float literal [0.4] is the
      double nearest to 2/5, see [float_0_4].  The only non-finite float
      the module can produce, [nan] out of [np.mean] of an empty list, is
      [NaN].
    - A cell of an object column is an [option]: [None] is Python's
      [None].  [pd.concat] of a boolean column and a column of [None]
      gives an object column that keeps the [None] cells.
    - The [geometry] columns are read by the matcher only; of their
      assignment the model keeps the one thing this module can see, that
      it raises on a table without rows ([set_geometry]).  The [score]
      column of the result, which is never read, is left out.
    - Equalities between numbers are stated for one and the same
      computation; no equality between two different ways of computing a
      number is claimed, since the program rounds every step.
    - The rectangle matcher [IoU.compute_IoU], the format checker
      [check_file] and the overlay (image file, drawing, writing) live
      outside this module; they are the [Variable]s of the section
      [Evaluate]. *)

From Stdlib Require Import List String Ascii Bool Arith ZArith QArith Qminmax Lia.
From Stdlib Require Import Permutation Orders Mergesort.
Import ListNotations.

Close Scope Q_scope.
Local Open Scope Z_scope.

(* ================================================================== *)
(** ** Exceptions and the error monad *)

Inductive exn : Type :=
| ValueError (msg : string)
| IndexError
| KeyError
| ZeroDivisionError
| TypeError
| IOError
| SchemaError (msg : string).

Inductive pyresult (A : Type) : Type :=
| Ok (a : A)
| Raise (e : exn).

Arguments Ok {A} a.
Arguments Raise {A} e.

Definition bind {A B : Type} (c : pyresult A) (k : A -> pyresult B) : pyresult B :=
  match c with
  | Ok a => k a
  | Raise e => Raise e
  end.

Notation "x <- c ;; k" := (bind c (fun x => k))
  (at level 61, c at next level, right associativity).

(** [try: c except: d] with a bare [except]: every exception is caught. *)
Definition try_except {A : Type} (c : pyresult A) (d : A) : A :=
  match c with
  | Ok a => a
  | Raise _ => d
  end.

Fixpoint mapM {A B : Type} (f : A -> pyresult B) (l : list A) : pyresult (list B) :=
  match l with
  | [] => Ok []
  | x :: xs => y <- f x ;; ys <- mapM f xs ;; Ok (y :: ys)
  end.

(** A [for] loop whose body may raise, threading the loop state. *)
Fixpoint foldM {A S : Type} (body : S -> A -> pyresult S) (l : list A) (s : S) : pyresult S :=
  match l with
  | [] => Ok s
  | x :: xs => s' <- body s x ;; foldM body xs s'
  end.

(* ================================================================== *)
(** ** Numbers *)

Inductive pyfloat : Type :=
| Fin (q : Q)
| NaN.

(** The double that the literal [0.4] denotes: 0x3FD999999999999A. *)
Definition float_0_4 : Q := Qmake 3602879701896397 9007199254740992.

(** [a > b] on floats. *)
Definition Qgtb (a b : Q) : bool := negb (Qle_bool a b).

(** [a / b] on Python integers. *)
Definition truediv (a b : Z) : pyresult Q :=
  if b =? 0 then Raise ZeroDivisionError
  else Ok (Qdiv (inject_Z a) (inject_Z b)).

(** [df.shape[0]] *)
Definition shape0 {A : Type} (df : list A) : Z := Z.of_nat (List.length df).

(** [df.empty] *)
Definition empty {A : Type} (df : list A) : bool :=
  match df with
  | [] => true
  | _ :: _ => false
  end.

(** The builtin [sum] over a column whose cells are [True], [False] or
    [None]: it starts from 0 and adds the cells from left to right;
    [int + None] is a [TypeError]. *)
Fixpoint py_sum_from (acc : Z) (cells : list (option bool)) : pyresult Z :=
  match cells with
  | [] => Ok acc
  | Some b :: rest => py_sum_from (acc + Z.b2z b) rest
  | None :: _ => Raise TypeError
  end.

Definition py_sum (cells : list (option bool)) : pyresult Z := py_sum_from 0 cells.

(** [sum] over a column of booleans or of integers. *)
Definition sum_bools (l : list bool) : Z := fold_left (fun acc b => acc + Z.b2z b) l 0.
Definition sum_ints (l : list Z) : Z := fold_left Z.add l 0.

Definition sumQ (l : list Q) : Q := fold_left Qplus l (inject_Z 0).

(** [np.mean] of a Python list: [nan] (with a warning, no exception) on
    the empty list. *)
Definition np_mean (l : list Q) : pyfloat :=
  match l with
  | [] => NaN
  | _ :: _ => Fin (Qdiv (sumQ l) (inject_Z (shape0 l)))
  end.

(* ================================================================== *)
(** ** Tables *)

(** A row of the prediction table or of the ground-truth table.  (The
    [score] column of a prediction table is never read by this module.) *)
Record Box : Type := {
  image_path : string;
  xmin : Q;
  ymin : Q;
  xmax : Q;
  ymax : Q;
  label : string
}.

(** A row of the pairing table that [IoU.compute_IoU] returns. *)
Record IoURow : Type := {
  iou_truth_id : nat;
  iou_prediction_id : option nat;
  iou_IoU : Q
}.

(** A row of the result table.  [evaluate_image] does not set the columns
    [image_path] and [match]; [evaluate] adds them.  A column that a row
    does not have is [None] (after [pd.concat] it is a missing value). *)
Record MatchRow : Type := {
  truth_id : nat;
  prediction_id : option nat;
  IoU : Q;
  predicted_label : option string;
  true_label : string;
  result_image_path : option string;
  match_ : option bool
}.

Record ClassMetrics : Type := {
  cm_label : string;
  cm_recall : Q;
  cm_precision : Q;
  cm_size : Z
}.

Record EvaluationResult : Type := {
  results : list MatchRow;
  box_precision : pyfloat;
  box_recall : pyfloat;
  class_recall : option (list ClassMetrics);
  overall_precision : Q;
  overall_recall : Q
}.

(** [Series.unique()]: the distinct values in order of first appearance. *)
Fixpoint unique (l : list string) : list string :=
  match l with
  | [] => []
  | x :: xs => x :: filter (fun y => negb (String.eqb y x)) (unique xs)
  end.

(** [arr[i]] on a numpy array. *)
Definition getitem {A : Type} (arr : list A) (i : nat) : pyresult A :=
  match nth_error arr i with
  | Some a => Ok a
  | None => Raise IndexError
  end.

(** [series.loc[i]] on a table with the positional index. *)
Definition loc {A : Type} (df : list A) (i : nat) : pyresult A :=
  match nth_error df i with
  | Some a => Ok a
  | None => Raise KeyError
  end.

(** The rows of a table with their index. *)
Definition indexed {A : Type} (df : list A) : list (nat * A) :=
  combine (seq 0 (List.length df)) df.

Module StringOrder <: TotalLeBool.
Definition t := string.
Definition leb := String.leb.
Definition leb_total : forall x y, leb x y = true \/ leb y x = true :=
  String.leb_total.
End StringOrder.

Module StringSort := Sort StringOrder.

(** [df.groupby(key)]: one group per distinct key, the groups in
    ascending key order, the rows of a group in table order. *)
Definition groupby {A : Type} (key : A -> string) (df : list A) : list (string * list A) :=
  map (fun k => (k, filter (fun r => String.eqb (key r) k) df))
      (StringSort.sort (unique (map key df))).

(** Truth value of an optional path ([if savedir:]). *)
Definition truthy (s : option string) : bool :=
  match s with
  | None => false
  | Some EmptyString => false
  | Some (String _ _) => true
  end.

(** [a == b] on cells of two label columns, the first of which may hold
    [None]. *)
Definition label_cell_eqb (a : option string) (b : string) : bool :=
  match a with
  | Some x => String.eqb x b
  | None => false
  end.

(** [cell == 1] on a cell of the [match] column. *)
Definition cell_is_1 (c : option bool) : bool :=
  match c with
  | Some true => true
  | _ => false
  end.

(* ================================================================== *)
(** ** The module's functions *)

Section Evaluate.

(** [IoU.compute_IoU(ground_df, predictions)] *)
Variable compute_IoU : list Box -> list Box -> list IoURow.
(** [utilities.check_file(df)] *)
Variable check_file : list Box -> pyresult unit.
(** The exception, if any, that the overlay of the image at a path
    raises: opening the image, reversing its channels and drawing the
    boxes can raise; a write that fails does not. *)
Variable overlay_error : string -> option exn.

Definition more_than_one_plot : string := "More than one plot passed to image crown: ".

(** [os.path]-free formatting ["{}/{}".format(root_dir, plot_name)]. *)
Definition join_path (root_dir plot_name : string) : string :=
  String.append root_dir (String.append "/" plot_name).

(** [df["geometry"] = df.apply(lambda x: box(...), axis=1)]: on a table
    without rows [apply] gives back a table, not a column, and the
    assignment raises a [ValueError] (the text is pandas' own). *)
Definition set_geometry (df : list Box) : pyresult unit :=
  if empty df
  then Raise (ValueError
                "Cannot set a DataFrame with multiple columns to the single column geometry")
  else Ok tt.

(** The label columns are attached row by row; both lookups raise the
    same [KeyError], so one pass over the rows stands for the two
    [apply] calls of the source. *)
Definition attach_labels (predictions ground_df : list Box) (x : IoURow) : pyresult MatchRow :=
  p <- match iou_prediction_id x with
       | Some i => b <- loc predictions i ;; Ok (Some (label b))
       | None => Ok None
       end ;;
  t <- loc ground_df (iou_truth_id x) ;;
  Ok {| truth_id := iou_truth_id x;
        prediction_id := iou_prediction_id x;
        IoU := iou_IoU x;
        predicted_label := p;
        true_label := label t;
        result_image_path := None;
        match_ := None |}.

Definition evaluate_image (predictions ground_df : list Box)
           (root_dir : string) (savedir : option string) : pyresult (list MatchRow) :=
  let plot_names := unique (map image_path predictions) in
  plot_name <- (if (1 <? List.length plot_names)%nat
                then first <- getitem plot_names 0 ;;
                     Raise (ValueError (String.append more_than_one_plot first))
                else getitem plot_names 0) ;;
  _ <- set_geometry predictions ;;
  _ <- set_geometry ground_df ;;
  let result := compute_IoU ground_df predictions in
  result <- mapM (attach_labels predictions ground_df) result ;;
  _ <- (if truthy savedir
        then match overlay_error (join_path root_dir plot_name) with
             | Some e => Raise e
             | None => Ok tt
             end
        else Ok tt) ;;
  Ok result.

(** [sum(group.true_label == group.predicted_label)] *)
Definition label_hits (group : list MatchRow) : Z :=
  sum_bools (map (fun r => label_cell_eqb (predicted_label r) (true_label r)) group).

Definition class_metrics (results : list MatchRow) (predictions : list Box)
           (g : string * list MatchRow) : pyresult ClassMetrics :=
  let '(name, group) := g in
  recall <- truediv (label_hits group)
                    (shape0 (filter (fun r => String.eqb (true_label r) name) results)) ;;
  let number_of_predictions :=
    shape0 (filter (fun p => String.eqb (label p) name) predictions) in
  precision <- (if number_of_predictions =? 0
                then Ok (inject_Z 0)
                else truediv (label_hits group) number_of_predictions) ;;
  Ok {| cm_label := name;
        cm_recall := recall;
        cm_precision := precision;
        cm_size := shape0 group |}.

Definition compute_class_recall (results : list MatchRow) (predictions : list Box)
  : pyresult (option (list ClassMetrics)) :=
  let df_IoUthres := filter (fun r => cell_is_1 (match_ r)) results in
  if empty df_IoUthres then Ok None
  else
    rows <- mapM (class_metrics results predictions) (groupby true_label df_IoUthres) ;;
    Ok (Some rows).

(** The state of the loop over the images. *)
Record LoopState : Type := {
  ls_results : list (list MatchRow);
  box_recalls : list Q;
  box_precisions : list Q
}.

Definition loop_init : LoopState :=
  {| ls_results := []; box_recalls := []; box_precisions := [] |}.

(** The rows built for an image without predictions. *)
Definition unpredicted_row (r : nat * Box) : MatchRow :=
  {| truth_id := fst r;
     prediction_id := None;
     IoU := inject_Z 0;
     predicted_label := None;
     true_label := label (snd r);
     result_image_path := None;
     match_ := None |}.

(** [result["image_path"] = image_path; result["match"] = result.IoU > iou_threshold] *)
Definition stamp (path : string) (iou_threshold : Q) (r : MatchRow) : MatchRow :=
  {| truth_id := truth_id r;
     prediction_id := prediction_id r;
     IoU := IoU r;
     predicted_label := predicted_label r;
     true_label := true_label r;
     result_image_path := Some path;
     match_ := Some (Qgtb (IoU r) iou_threshold) |}.

Definition image_predictions_of (predictions : list Box) (path : string) : list Box :=
  filter (fun p => String.eqb (image_path p) path) predictions.

Definition loop_body (predictions : list Box) (root_dir : string) (iou_threshold : Q)
           (savedir : option string)
           (st : LoopState) (g : string * list (nat * Box)) : pyresult LoopState :=
  let '(path, group) := g in
  let image_predictions := image_predictions_of predictions path in
  if empty image_predictions then
    let result := map unpredicted_row group in
    Ok {| ls_results := ls_results st ++ [result];
          box_recalls := box_recalls st ++ [inject_Z 0];
          box_precisions := box_precisions st |}
  else
    let group := map snd group in
    result <- evaluate_image image_predictions group root_dir savedir ;;
    let result := map (stamp path iou_threshold) result in
    true_positive <- py_sum (map match_ result) ;;
    recall <- truediv true_positive (shape0 result) ;;
    precision <- truediv true_positive (shape0 image_predictions) ;;
    Ok {| ls_results := ls_results st ++ [result];
          box_recalls := box_recalls st ++ [recall];
          box_precisions := box_precisions st ++ [precision] |}.

(** [pd.concat(frames)] *)
Definition pd_concat {A : Type} (frames : list (list A)) : pyresult (list A) :=
  match frames with
  | [] => Raise (ValueError "No objects to concatenate")
  | _ :: _ => Ok (List.concat frames)
  end.

Definition evaluate (predictions ground_df : list Box) (root_dir : string)
           (iou_threshold : Q) (savedir : option string) (average : bool)
  : pyresult EvaluationResult :=
  _ <- check_file ground_df ;;
  _ <- check_file predictions ;;
  st <- foldM (loop_body predictions root_dir iou_threshold savedir)
              (groupby (fun r => image_path (snd r)) (indexed ground_df)) loop_init ;;
  results <- pd_concat (ls_results st) ;;
  let box_precision :=
    try_except (s <- py_sum (map match_ results) ;; truediv s (shape0 predictions))
               (inject_Z 0) in
  let box_recall :=
    try_except (s <- py_sum (map match_ results) ;; truediv s (shape0 results))
               (inject_Z 0) in
  let box_precision := if average then np_mean (box_precisions st) else Fin box_precision in
  let box_recall := if average then np_mean (box_recalls st) else Fin box_recall in
  class_recall <- compute_class_recall results predictions ;;
  let df_iou := filter (fun r => Qgtb (IoU r) float_0_4) results in
  let correct :=
    map (fun r => if label_cell_eqb (predicted_label r) (true_label r) then 1 else 0) df_iou in
  let TP := sum_ints correct in
  let FP := shape0 predictions - sum_ints correct in
  let FN := shape0 results - sum_ints correct in
  let overall_precision := try_except (truediv TP (TP + FP)) (inject_Z 0) in
  let overall_recall := try_except (truediv TP (TP + FN)) (inject_Z 0) in
  Ok {| results := results;
        box_precision := box_precision;
        box_recall := box_recall;
        class_recall := class_recall;
        overall_precision := overall_precision;
        overall_recall := overall_recall |}.

End Evaluate.


(* ================================================================== *)
(** ** Quantities the specification speaks of *)

(** Number of rows of a table that satisfy a test. *)
Definition count {A : Type} (f : A -> bool) (l : list A) : Z := shape0 (filter f l).

(** The rows with [match == true]. *)
Definition matched_subset (rows : list MatchRow) : list MatchRow :=
  filter (fun r => cell_is_1 (match_ r)) rows.

(** Rows that count as true positives of the label-aware metrics. *)
Definition correct_over_0_4 (r : MatchRow) : bool :=
  Qgtb (IoU r) float_0_4 && label_cell_eqb (predicted_label r) (true_label r).

(** Per-class counts. *)
Definition class_hits (c : string) (rows : list MatchRow) : Z :=
  count (fun r => String.eqb (true_label r) c && label_cell_eqb (predicted_label r) c)
        (matched_subset rows).

Definition class_truths (c : string) (rows : list MatchRow) : Z :=
  count (fun r => String.eqb (true_label r) c) rows.

Definition class_predictions (c : string) (predictions : list Box) : Z :=
  count (fun p => String.eqb (label p) c) predictions.

Definition class_support (c : string) (rows : list MatchRow) : Z :=
  count (fun r => String.eqb (true_label r) c) (matched_subset rows).

(** The keys of the groups of [groupby], in group order. *)
Definition group_keys {A : Type} (key : A -> string) (df : list A) : list string :=
  StringSort.sort (unique (map key df)).

(** The per-class row that the specification describes for class [c]. *)
Definition class_row (rows : list MatchRow) (predictions : list Box) (c : string)
  : ClassMetrics :=
  {| cm_label := c;
     cm_recall := Qdiv (inject_Z (class_hits c rows)) (inject_Z (class_truths c rows));
     cm_precision :=
       if class_predictions c predictions =? 0
       then inject_Z 0
       else Qdiv (inject_Z (class_hits c rows))
                 (inject_Z (class_predictions c predictions));
     cm_size := class_support c rows |}.

(** A per-class row without its recall. *)
Definition without_recall (m : ClassMetrics) : string * Q * Z :=
  (cm_label m, cm_precision m, cm_size m).

(** A row with its [match] cell blanked. *)
Definition erase_match (r : MatchRow) : MatchRow :=
  {| truth_id := truth_id r;
     prediction_id := prediction_id r;
     IoU := IoU r;
     predicted_label := predicted_label r;
     true_label := true_label r;
     result_image_path := result_image_path r;
     match_ := None |}.

Section PerImage.

Variable compute_IoU : list Box -> list Box -> list IoURow.
Variable predictions : list Box.
Variable iou_threshold : Q.

(** The image groups of the ground truth, as the loop visits them. *)
Definition image_groups (ground_df : list Box) : list (string * list (nat * Box)) :=
  groupby (fun r => image_path (snd r)) (indexed ground_df).

Definition has_predictions (g : string * list (nat * Box)) : bool :=
  negb (empty (image_predictions_of predictions (fst g))).

(** The pairing table of one image that has predictions. *)
Definition image_pairs (g : string * list (nat * Box)) : list IoURow :=
  compute_IoU (map snd (snd g)) (image_predictions_of predictions (fst g)).

Definition image_matched (g : string * list (nat * Box)) : Z :=
  count (fun x => Qgtb (iou_IoU x) iou_threshold) (image_pairs g).

(** Per-image recall: 0 for an image without predictions. *)
Definition image_recall (g : string * list (nat * Box)) : Q :=
  if has_predictions g
  then Qdiv (inject_Z (image_matched g)) (inject_Z (shape0 (image_pairs g)))
  else inject_Z 0.

(** Per-image precision, meaningful for an image with predictions. *)
Definition image_precision (g : string * list (nat * Box)) : Q :=
  Qdiv (inject_Z (image_matched g))
       (inject_Z (shape0 (image_predictions_of predictions (fst g)))).

End PerImage.

(** The rows that the loop of [evaluate] appends for an image group. *)
Definition image_table (compute_IoU : list Box -> list Box -> list IoURow)
           (overlay_error : string -> option exn) (predictions : list Box)
           (root_dir : string)
           (iou_threshold : Q) (savedir : option string)
           (g : string * list (nat * Box)) (rows : list MatchRow) : Prop :=
  if has_predictions predictions g
  then exists raw,
      evaluate_image compute_IoU overlay_error
                     (image_predictions_of predictions (fst g)) (map snd (snd g))
                     root_dir savedir = Ok raw
      /\ rows = map (stamp (fst g) iou_threshold) raw
  else rows = map unpredicted_row (snd g).

(** The identifiers of a pairing table refer to rows of the two tables. *)
Definition ids_in_range (ground_df predictions : list Box) (x : IoURow) : Prop :=
  (iou_truth_id x < List.length ground_df)%nat /\
  match iou_prediction_id x with
  | Some i => (i < List.length predictions)%nat
  | None => True
  end.

(** The ground-truth row that a result row stands for, in a ground truth
    given with its index: a row without [image_path] names it by its
    index, a row of the image [path] names it by its position among the
    ground-truth rows of that image. *)
Definition stands_for (truth : list (nat * Box)) (t : nat * Box) (r : MatchRow) : Prop :=
  true_label r = label (snd t) /\
  match result_image_path r with
  | Some path =>
      nth_error (filter (fun u => String.eqb (image_path (snd u)) path) truth) (truth_id r)
      = Some t
  | None => truth_id r = fst t
  end.

(** Whether a message mentions a path. *)
Definition mentions (msg path : string) : bool :=
  match String.index 0 path msg with
  | Some _ => true
  | None => false
  end.

(* ================================================================== *)
(** ** A matcher and tables for concrete runs

    [positional_IoU] pairs the i-th ground-truth rectangle with the i-th
    predicted rectangle when the two overlap.  It returns one row per
    ground-truth rectangle and uses a prediction at most once, as the
    matcher's contract asks; on rectangles that coincide it reports the
    IoU 1 that every matcher reports. *)

Definition overlap (lo1 hi1 lo2 hi2 : Q) : Q :=
  Qmax (inject_Z 0) (Qminus (Qmin hi1 hi2) (Qmax lo1 lo2)).

Definition area (b : Box) : Q :=
  Qmult (Qminus (xmax b) (xmin b)) (Qminus (ymax b) (ymin b)).

Definition box_IoU (a b : Box) : Q :=
  let i := Qmult (overlap (xmin a) (xmax a) (xmin b) (xmax b))
                 (overlap (ymin a) (ymax a) (ymin b) (ymax b)) in
  let u := Qminus (Qplus (area a) (area b)) i in
  if Qeq_bool u (inject_Z 0) then inject_Z 0 else Qred (Qdiv i u).

Definition unmatched (i : nat) : IoURow :=
  {| iou_truth_id := i; iou_prediction_id := None; iou_IoU := inject_Z 0 |}.

Definition positional_pair (predictions : list Box) (g : nat * Box) : IoURow :=
  match nth_error predictions (fst g) with
  | Some p =>
      if Qgtb (box_IoU (snd g) p) (inject_Z 0)
      then {| iou_truth_id := fst g;
              iou_prediction_id := Some (fst g);
              iou_IoU := box_IoU (snd g) p |}
      else unmatched (fst g)
  | None => unmatched (fst g)
  end.

Definition positional_IoU (ground_df predictions : list Box) : list IoURow :=
  map (positional_pair predictions) (indexed ground_df).

(** A faulty matcher for concrete runs: its one row names a ground-truth
    row past the end of the table. *)
Definition stray_IoU (ground_df predictions : list Box) : list IoURow :=
  [ {| iou_truth_id := List.length ground_df;
       iou_prediction_id := None;
       iou_IoU := inject_Z 0 |} ].

Definition accept_file (df : list Box) : pyresult unit := Ok tt.

(** No image can be opened. *)
Definition no_image (path : string) : option exn := Some IOError.

Definition box (path : string) (x0 y0 x1 y1 : Z) (l : string) : Box :=
  {| image_path := path;
     xmin := inject_Z x0; ymin := inject_Z y0;
     xmax := inject_Z x1; ymax := inject_Z y1;
     label := l |}.

(** Image A: one tree, found exactly.  Image B: one tree, no prediction. *)
Definition truth_AB : list Box :=
  [ box "A.tif" 0 0 10 10 "Tree"; box "B.tif" 0 0 10 10 "Tree" ].

Definition predictions_A : list Box :=
  [ box "A.tif" 0 0 10 10 "Tree" ].

(** Two predictions that belong to two images. *)
Definition predictions_AB : list Box :=
  [ box "A.tif" 0 0 10 10 "Tree"; box "B.tif" 5 5 20 20 "Tree" ].

(** Image A: two trees, one found exactly, one found with the label
    "Shrub" and a smaller overlap. *)
Definition truth_A2 : list Box :=
  [ box "A.tif" 0 0 10 10 "Tree"; box "A.tif" 20 20 30 30 "Tree" ].

Definition predictions_A2 : list Box :=
  [ box "A.tif" 0 0 10 10 "Tree"; box "A.tif" 20 20 30 25 "Shrub" ].

(** A table of matched rows: a tree found with the right label, a tree
    found as a shrub, a shrub that was missed. *)
Definition match_row (i : nat) (p : option nat) (iou : Q) (pl : option string)
           (tl : string) (m : option bool) : MatchRow :=
  {| truth_id := i; prediction_id := p; IoU := iou; predicted_label := pl;
     true_label := tl; result_image_path := Some "A.tif"%string; match_ := m |}.

Definition matched_rows_sample : list MatchRow :=
  [ match_row 0 (Some 0%nat) (inject_Z 1) (Some "Tree"%string) "Tree" (Some true);
    match_row 1 (Some 1%nat) (Qmake 1 2) (Some "Shrub"%string) "Tree" (Some true);
    match_row 2 None (inject_Z 0) None "Shrub" (Some false) ].

(** A table of matched rows: a tree that was found and a tree that was
    missed. *)
Definition matched_rows_missed : list MatchRow :=
  [ match_row 0 (Some 0%nat) (inject_Z 1) (Some "Tree"%string) "Tree" (Some true);
    match_row 1 None (inject_Z 0) None "Tree" (Some false) ].

(* ================================================================== *)
(** ** Basic facts about the error monad and the column operations *)

Lemma bind_Ok {A B : Type} (c : pyresult A) (k : A -> pyresult B) (b : B) :
  bind c k = Ok b -> exists a, c = Ok a /\ k a = Ok b.
Proof.
  destruct c as [a|e]; simpl; intros H; [exists a; auto | discriminate].
Qed.

Ltac bind_inv H :=
  let a := fresh "v" in
  let Ha := fresh "Hv" in
  apply bind_Ok in H; destruct H as [a [Ha H]].

Lemma mapM_Ok {A B : Type} (f : A -> pyresult B) (l : list A) (ys : list B) :
  mapM f l = Ok ys -> Forall2 (fun x y => f x = Ok y) l ys.
Proof.
  revert ys; induction l as [|x xs IH]; simpl; intros ys H.
  - injection H as <-. constructor.
  - bind_inv H. bind_inv H. injection H as <-. constructor; auto.
Qed.

Lemma mapM_total {A B : Type} (f : A -> pyresult B) (l : list A) :
  (forall x, In x l -> exists y, f x = Ok y) ->
  exists ys, mapM f l = Ok ys.
Proof.
  induction l as [|x xs IH]; simpl; intros H.
  - eexists; reflexivity.
  - destruct (H x (or_introl eq_refl)) as [y Hy]. rewrite Hy. simpl.
    destruct IH as [ys Hys]; [intros; apply H; auto|].
    rewrite Hys. simpl. eexists; reflexivity.
Qed.

Lemma Forall2_length_eq {A B : Type} (R : A -> B -> Prop) (l : list A) (l' : list B) :
  Forall2 R l l' -> List.length l = List.length l'.
Proof. induction 1; simpl; congruence. Qed.

Lemma shape0_app {A : Type} (l l' : list A) : shape0 (l ++ l') = shape0 l + shape0 l'.
Proof. unfold shape0. rewrite length_app. lia. Qed.

Lemma shape0_map {A B : Type} (f : A -> B) (l : list A) : shape0 (map f l) = shape0 l.
Proof. unfold shape0. now rewrite length_map. Qed.

Lemma set_geometry_rows (df : list Box) : df <> [] -> set_geometry df = Ok tt.
Proof. destruct df; [congruence | reflexivity]. Qed.

Lemma empty_true {A : Type} (l : list A) : empty l = true <-> l = [].
Proof. destruct l; simpl; split; congruence. Qed.

Lemma empty_false_shape0 {A : Type} (l : list A) : empty l = false <-> 0 < shape0 l.
Proof. destruct l; unfold shape0; simpl; split; intros; try congruence; lia. Qed.

Lemma Qgtb_lt (a b : Q) : Qgtb a b = true <-> (b < a)%Q.
Proof.
  unfold Qgtb. rewrite negb_true_iff. split.
  - intros H. apply Qnot_le_lt. intros Hle.
    apply Qle_bool_iff in Hle. congruence.
  - intros H. destruct (Qle_bool a b) eqn:E; auto.
    apply Qle_bool_iff in E. exfalso. exact (Qlt_not_le _ _ H E).
Qed.

(** [sum] of a boolean column counts its [True] cells. *)
Lemma sum_bools_from (l : list bool) (acc : Z) :
  fold_left (fun a b => a + Z.b2z b) l acc = acc + count (fun b => b) l.
Proof.
  revert acc; induction l as [|b bs IH]; intros acc; unfold count, shape0 in *; simpl.
  - lia.
  - rewrite IH. destruct b; simpl; lia.
Qed.

Lemma count_map {A B : Type} (f : B -> bool) (g : A -> B) (l : list A) :
  count f (map g l) = count (fun x => f (g x)) l.
Proof.
  unfold count, shape0. f_equal.
  induction l as [|x xs IH]; simpl; auto.
  destruct (f (g x)); simpl; congruence.
Qed.

Lemma sum_bools_count {A : Type} (f : A -> bool) (l : list A) :
  sum_bools (map f l) = count f l.
Proof.
  unfold sum_bools. rewrite sum_bools_from, count_map, Z.add_0_l. reflexivity.
Qed.

Lemma sum_ints_from (l : list Z) (acc : Z) :
  fold_left Z.add l acc = acc + fold_left Z.add l 0.
Proof.
  revert acc; induction l as [|x xs IH]; intros acc; simpl; [lia|].
  rewrite IH, (IH x). lia.
Qed.

Lemma sum_ints_indicator {A : Type} (f : A -> bool) (l : list A) :
  sum_ints (map (fun r => if f r then 1 else 0) l) = count f l.
Proof.
  unfold sum_ints, count, shape0.
  induction l as [|x xs IH]; simpl; auto.
  rewrite sum_ints_from, IH.
  destruct (f x); cbn [List.length]; rewrite ?Nat2Z.inj_succ; lia.
Qed.

Lemma count_cons {A : Type} (f : A -> bool) (x : A) (l : list A) :
  count f (x :: l) = (if f x then 1 else 0) + count f l.
Proof.
  unfold count, shape0. cbn [filter].
  destruct (f x); cbn [List.length]; rewrite ?Nat2Z.inj_succ; lia.
Qed.

Lemma count_filter {A : Type} (f g : A -> bool) (l : list A) :
  count f (filter g l) = count (fun x => g x && f x) l.
Proof.
  unfold count, shape0. f_equal.
  induction l as [|x xs IH]; simpl; auto.
  destruct (g x); simpl; [destruct (f x); simpl|]; congruence.
Qed.

Lemma count_ext_in {A : Type} (f g : A -> bool) (l : list A) :
  (forall x, In x l -> f x = g x) -> count f l = count g l.
Proof. intros H. unfold count. now rewrite (filter_ext_in _ _ _ H). Qed.

Lemma count_pos {A : Type} (f : A -> bool) (l : list A) (x : A) :
  In x l -> f x = true -> 0 < count f l.
Proof.
  intros Hin Hf. unfold count.
  assert (H : In x (filter f l)) by (apply filter_In; auto).
  destruct (filter f l); [contradiction | unfold shape0; simpl; lia].
Qed.

(** [sum] over a [match] column. *)
Lemma py_sum_from_Some (bs : list bool) (acc : Z) :
  py_sum_from acc (map Some bs) = Ok (acc + count (fun b => b) bs).
Proof.
  revert acc; induction bs as [|b bs IH]; intros acc; unfold count, shape0 in *; simpl.
  - f_equal; lia.
  - rewrite IH. f_equal. destruct b; simpl; lia.
Qed.

Lemma py_sum_from_None (cells : list (option bool)) (acc : Z) :
  In None cells -> py_sum_from acc cells = Raise TypeError.
Proof.
  revert acc; induction cells as [|c cs IH]; intros acc H; [contradiction|].
  destruct c as [b|]; simpl; auto.
  apply IH. destruct H; [discriminate | assumption].
Qed.

(* ================================================================== *)
(** ** Distinct values and groups *)

Lemma unique_In (l : list string) (x : string) : In x (unique l) <-> In x l.
Proof.
  induction l as [|y ys IH]; simpl; [tauto|].
  rewrite filter_In, IH, negb_true_iff, String.eqb_neq.
  destruct (String.eqb_spec y x) as [->|Hne]; [tauto|].
  split; [tauto|]. intros [H|H]; [tauto|]. right. split; congruence.
Qed.

Lemma unique_NoDup (l : list string) : NoDup (unique l).
Proof.
  induction l as [|y ys IH]; simpl; constructor.
  - rewrite filter_In, String.eqb_refl. simpl. intros [_ H]. discriminate.
  - now apply NoDup_filter.
Qed.

Lemma group_keys_In {A : Type} (key : A -> string) (df : list A) (k : string) :
  In k (group_keys key df) <-> In k (map key df).
Proof.
  unfold group_keys. split; intros H.
  - apply unique_In.
    eapply Permutation_in; [apply Permutation_sym, StringSort.Permuted_sort | exact H].
  - eapply Permutation_in; [apply StringSort.Permuted_sort | now apply unique_In].
Qed.

Lemma group_keys_NoDup {A : Type} (key : A -> string) (df : list A) :
  NoDup (group_keys key df).
Proof.
  unfold group_keys.
  eapply Permutation_NoDup; [apply StringSort.Permuted_sort | apply unique_NoDup].
Qed.

Lemma groupby_keys {A : Type} (key : A -> string) (df : list A) :
  map fst (groupby key df) = group_keys key df.
Proof.
  unfold groupby. rewrite map_map. simpl. apply map_id.
Qed.

Lemma groupby_In {A : Type} (key : A -> string) (df : list A) (k : string) (g : list A) :
  In (k, g) (groupby key df) ->
  In k (map key df) /\ g = filter (fun r => String.eqb (key r) k) df.
Proof.
  unfold groupby. rewrite in_map_iff. intros [k' [E H]].
  injection E as -> <-. split; auto. now apply group_keys_In.
Qed.

(** Every group of [groupby] has a row. *)
Lemma groupby_nonempty {A : Type} (key : A -> string) (df : list A) (k : string) (g : list A) :
  In (k, g) (groupby key df) -> g <> [].
Proof.
  intros H. apply groupby_In in H. destruct H as [Hk ->].
  apply in_map_iff in Hk. destruct Hk as [r [<- Hr]].
  intros E.
  assert (Hin : In r (filter (fun r0 => String.eqb (key r0) (key r)) df))
    by (apply filter_In; split; auto; apply String.eqb_refl).
  rewrite E in Hin. contradiction.
Qed.

(** The groups partition the table: with distinct keys, a row is counted
    by the one key it carries. *)
Lemma group_sizes_sum {A : Type} (key : A -> string) (df : list A) (keys : list string) :
  NoDup keys ->
  fold_right Z.add 0 (map (fun k => count (fun r => String.eqb (key r) k) df) keys)
  = count (fun r => existsb (String.eqb (key r)) keys) df.
Proof.
  intros Hnd. induction Hnd as [|k ks Hk Hnd IH]; cbn [map fold_right].
  - induction df as [|r rs IHr]; [reflexivity|].
    rewrite count_cons. cbn [existsb] in *. lia.
  - rewrite IH. clear IH.
    induction df as [|r rs IHr]; [reflexivity|].
    rewrite !count_cons. cbn [existsb] in *.
    destruct (String.eqb_spec (key r) k) as [E|E]; cbn [orb].
    + assert (Hex : existsb (String.eqb (key r)) ks = false).
      { destruct (existsb (String.eqb (key r)) ks) eqn:Ex; auto.
        apply existsb_exists in Ex. destruct Ex as [k' [Hin Hk']].
        apply String.eqb_eq in Hk'. subst. contradiction. }
      rewrite Hex. lia.
    + destruct (existsb (String.eqb (key r)) ks); lia.
Qed.

Lemma groupby_partition {A : Type} (key : A -> string) (df : list A) :
  fold_right Z.add 0 (map (fun g => shape0 (snd g)) (groupby key df)) = shape0 df.
Proof.
  unfold groupby. rewrite map_map. cbn [snd].
  fold (group_keys key df).
  change (fold_right Z.add 0
            (map (fun k => count (fun r => String.eqb (key r) k) df) (group_keys key df))
          = shape0 df).
  rewrite group_sizes_sum by apply group_keys_NoDup.
  unfold count. f_equal. f_equal.
  apply forallb_filter_id. apply forallb_forall. intros r Hr.
  apply existsb_exists. exists (key r). split; [|apply String.eqb_refl].
  apply group_keys_In. now apply in_map.
Qed.

Lemma indexed_length {A : Type} (df : list A) : List.length (indexed df) = List.length df.
Proof. unfold indexed. rewrite length_combine, length_seq. lia. Qed.

Lemma indexed_rows {A : Type} (df : list A) : map snd (indexed df) = df.
Proof.
  unfold indexed. generalize 0%nat.
  induction df as [|x xs IH]; intros n; simpl; [reflexivity|].
  now rewrite IH.
Qed.

(* ================================================================== *)
(** ** The per-image evaluator *)

Section EvaluateImageFacts.

Variable compute_IoU : list Box -> list Box -> list IoURow.
Variable overlay_error : string -> option exn.

Lemma attach_labels_Ok (predictions ground_df : list Box) (x : IoURow) (r : MatchRow) :
  attach_labels predictions ground_df x = Ok r ->
  truth_id r = iou_truth_id x /\ prediction_id r = iou_prediction_id x /\
  IoU r = iou_IoU x /\ match_ r = None /\
  exists t, nth_error ground_df (iou_truth_id x) = Some t /\ true_label r = label t.
Proof.
  unfold attach_labels. intros H. bind_inv H. bind_inv H.
  injection H as <-. cbn. repeat split.
  unfold loc in Hv0. destruct (nth_error ground_df (iou_truth_id x)) as [t|]; [|discriminate].
  injection Hv0 as <-. exists t. auto.
Qed.

Lemma evaluate_image_Ok (predictions ground_df : list Box) (root_dir : string)
      (savedir : option string) (rows : list MatchRow) :
  evaluate_image compute_IoU overlay_error predictions ground_df root_dir savedir = Ok rows ->
  Forall2 (fun x r => attach_labels predictions ground_df x = Ok r)
          (compute_IoU ground_df predictions) rows.
Proof.
  unfold evaluate_image. intros H.
  bind_inv H. bind_inv H. bind_inv H. bind_inv H. bind_inv H.
  injection H as <-. now apply mapM_Ok.
Qed.

Lemma evaluate_image_rows (predictions ground_df : list Box) (root_dir : string)
      (savedir : option string) (rows : list MatchRow) :
  evaluate_image compute_IoU overlay_error predictions ground_df root_dir savedir = Ok rows ->
  map IoU rows = map iou_IoU (compute_IoU ground_df predictions) /\
  List.length rows = List.length (compute_IoU ground_df predictions).
Proof.
  intros H. apply evaluate_image_Ok in H.
  induction H as [|x r xs rs Hx _ IH]; [split; reflexivity|].
  apply attach_labels_Ok in Hx. destruct Hx as (_ & _ & HI & _).
  destruct IH as [IH1 IH2]. cbn. split; congruence.
Qed.

(** C10. A prediction table without rows makes [evaluate_image] fail on
    [plot_names[0]] with an [IndexError]: no result is returned and the
    error is not the [ValueError] raised for several plots. *)
Theorem evaluate_image_without_predictions (ground_df : list Box) (root_dir : string)
        (savedir : option string) :
  evaluate_image compute_IoU overlay_error [] ground_df root_dir savedir = Raise IndexError
  /\ (forall rows,
        evaluate_image compute_IoU overlay_error [] ground_df root_dir savedir <> Ok rows)
  /\ (forall msg,
        evaluate_image compute_IoU overlay_error [] ground_df root_dir savedir
        <> Raise (ValueError msg)).
Proof.
  assert (H : evaluate_image compute_IoU overlay_error [] ground_df root_dir savedir
              = Raise IndexError) by reflexivity.
  split; [exact H|]. rewrite H. split; intros; discriminate.
Qed.

(** C4, as the code has it.  With more than one distinct [image_path]
    among the predictions, [evaluate_image] raises a [ValueError] whose
    message ends with the first distinct path only, which is the path of
    the first row. *)
Theorem evaluate_image_more_than_one_plot (predictions ground_df : list Box)
        (root_dir : string) (savedir : option string) :
  (1 < List.length (unique (map image_path predictions)))%nat ->
  exists first,
    hd_error (map image_path predictions) = Some first /\
    evaluate_image compute_IoU overlay_error predictions ground_df root_dir savedir
    = Raise (ValueError
               (String.append "More than one plot passed to image crown: " first)).
Proof.
  intros H. unfold evaluate_image.
  apply Nat.ltb_lt in H. rewrite H.
  destruct predictions as [|b rest]; [discriminate|].
  exists (image_path b). split; reflexivity.
Qed.

End EvaluateImageFacts.

(** A table with the two paths "A.tif" and "B.tif" is rejected with the
    message that names "A.tif". *)
Lemma evaluate_image_more_than_one_plot_witness :
  exists first,
    hd_error (map image_path predictions_AB) = Some first /\
    evaluate_image positional_IoU no_image predictions_AB truth_AB "root" None
    = Raise (ValueError (String.append "More than one plot passed to image crown: " first)).
Proof.
  apply (evaluate_image_more_than_one_plot positional_IoU no_image
           predictions_AB truth_AB "root" None).
  vm_compute. lia.
Defined.

(** The message of that run does mention the first path. *)
Example message_mentions_first_path :
  mentions "More than one plot passed to image crown: A.tif" "A.tif" = true /\
  mentions "More than one plot passed to image crown: A.tif" "B.tif" = false.
Proof. split; reflexivity. Qed.

(** C4, as the specification words it, fails: on the two paths "A.tif"
    and "B.tif" the message does not mention "B.tif". *)
Lemma evaluate_image_message_omits_a_path :
  (1 < List.length (unique (map image_path predictions_AB)))%nat /\
  ~ (exists msg,
        evaluate_image positional_IoU no_image predictions_AB truth_AB "root" None
        = Raise (ValueError msg)
        /\ forallb (mentions msg) (unique (map image_path predictions_AB)) = true).
Proof.
  split; [vm_compute; lia|].
  intros [msg [H1 H2]].
  vm_compute in H1. injection H1 as <-.
  vm_compute in H2. discriminate.
Qed.

(* ================================================================== *)
(** ** Per-class metrics *)

Section ClassRecallFacts.

Variable results : list MatchRow.
Variable predictions : list Box.

Lemma label_hits_group (c : string) :
  label_hits (filter (fun r => String.eqb (true_label r) c) (matched_subset results))
  = class_hits c results.
Proof.
  unfold label_hits, class_hits. rewrite sum_bools_count, count_filter.
  apply count_ext_in. intros r _.
  destruct (String.eqb_spec (true_label r) c) as [->|]; reflexivity.
Qed.

Lemma class_truths_pos (c : string) :
  In c (map true_label (matched_subset results)) -> 0 < class_truths c results.
Proof.
  intros H. apply in_map_iff in H. destruct H as [r [<- Hr]].
  apply filter_In in Hr. destruct Hr as [Hr _].
  eapply count_pos; [exact Hr | apply String.eqb_refl].
Qed.

Lemma class_metrics_group (c : string) :
  In c (map true_label (matched_subset results)) ->
  class_metrics results predictions
    (c, filter (fun r => String.eqb (true_label r) c) (matched_subset results))
  = Ok (class_row results predictions c).
Proof.
  intros H. apply class_truths_pos in H.
  unfold class_metrics, truediv. rewrite label_hits_group.
  fold (count (fun r => String.eqb (true_label r) c) results).
  fold (class_truths c results).
  destruct (Z.eqb_spec (class_truths c results) 0) as [E|_]; [lia|].
  cbn [bind].
  fold (count (fun p => String.eqb (label p) c) predictions).
  fold (class_predictions c predictions).
  unfold class_row, class_support, count.
  destruct (class_predictions c predictions =? 0); reflexivity.
Qed.

Lemma mapM_class_metrics (keys : list string) :
  (forall c, In c keys -> In c (map true_label (matched_subset results))) ->
  mapM (class_metrics results predictions)
       (map (fun k => (k, filter (fun r => String.eqb (true_label r) k)
                                 (matched_subset results))) keys)
  = Ok (map (class_row results predictions) keys).
Proof.
  induction keys as [|k ks IH]; intros H; cbn [map mapM]; [reflexivity|].
  rewrite class_metrics_group by (apply H; left; reflexivity).
  cbn [bind]. rewrite IH by (intros; apply H; right; assumption).
  reflexivity.
Qed.

(** [compute_class_recall] never raises: a class that has a matched row
    has a row in [results], so the recall's divisor is not 0. *)
Lemma compute_class_recall_closed :
  compute_class_recall results predictions
  = Ok (if empty (matched_subset results) then None
        else Some (map (class_row results predictions) (group_keys true_label (matched_subset results)))).
Proof.
  unfold compute_class_recall. fold (matched_subset results).
  destruct (empty (matched_subset results)); [reflexivity|].
  unfold groupby. fold (group_keys true_label (matched_subset results)).
  rewrite mapM_class_metrics; [reflexivity|].
  intros c Hc. now apply group_keys_In.
Qed.

Lemma matched_subset_empty :
  empty (matched_subset results) = true <->
  (forall r, In r results -> match_ r <> Some true).
Proof.
  rewrite empty_true. unfold matched_subset. split.
  - intros E r Hr Hm.
    assert (Hin : In r (filter (fun r0 => cell_is_1 (match_ r0)) results))
      by (apply filter_In; rewrite Hm; auto).
    rewrite E in Hin. contradiction.
  - intros H. induction results as [|r rs IH]; [reflexivity|].
    cbn [filter]. destruct (match_ r) as [[|]|] eqn:Em; cbn [cell_is_1].
    + exfalso. apply (H r); [left; reflexivity | assumption].
    + apply IH. intros; apply H; right; assumption.
    + apply IH. intros; apply H; right; assumption.
Qed.

(** C7. When some row has [match == true], [compute_class_recall]
    returns a table with one row per distinct [true_label] of the
    matched subset.  The row of class [c] has
    recall = hits(c) / (rows of [results] with [true_label == c]),
    precision = hits(c) / (predictions with [label == c]), or 0 when
    there is no such prediction, and size = (rows of the matched subset
    with [true_label == c]), where hits(c) counts the rows of the matched
    subset with [predicted_label == true_label == c]. *)
Theorem compute_class_recall_metrics :
  (exists r, In r results /\ match_ r = Some true) ->
  exists table,
    compute_class_recall results predictions = Ok (Some table) /\
    NoDup (map cm_label table) /\
    (forall c, In c (map cm_label table) <->
               In c (map true_label (matched_subset results))) /\
    (forall m, In m table ->
       let c := cm_label m in
       cm_recall m
       = Qdiv (inject_Z (class_hits c results)) (inject_Z (class_truths c results)) /\
       cm_precision m
       = (if class_predictions c predictions =? 0
          then inject_Z 0
          else Qdiv (inject_Z (class_hits c results))
                    (inject_Z (class_predictions c predictions))) /\
       cm_size m = class_support c results).
Proof.
  intros [r [Hr Hm]].
  exists (map (class_row results predictions) (group_keys true_label (matched_subset results))).
  assert (Hlab : map cm_label (map (class_row results predictions) (group_keys true_label (matched_subset results)))
                 = group_keys true_label (matched_subset results)).
  { rewrite map_map. cbn. apply map_id. }
  split; [|split; [|split]].
  - rewrite compute_class_recall_closed.
    destruct (empty (matched_subset results)) eqn:E; [|reflexivity].
    exfalso. exact (proj1 matched_subset_empty E r Hr Hm).
  - rewrite Hlab. apply group_keys_NoDup.
  - intros c. rewrite Hlab. apply group_keys_In.
  - intros m Hin. apply in_map_iff in Hin. destruct Hin as [c [<- _]].
    cbn. auto.
Qed.

End ClassRecallFacts.

(** The per-class metrics of [matched_rows_sample], whose first row is
    matched. *)
Lemma compute_class_recall_metrics_witness :
  exists table,
    compute_class_recall matched_rows_sample predictions_A2 = Ok (Some table) /\
    NoDup (map cm_label table) /\
    (forall c, In c (map cm_label table) <->
               In c (map true_label (matched_subset matched_rows_sample))) /\
    (forall m, In m table ->
       let c := cm_label m in
       cm_recall m
       = Qdiv (inject_Z (class_hits c matched_rows_sample))
              (inject_Z (class_truths c matched_rows_sample)) /\
       cm_precision m
       = (if class_predictions c predictions_A2 =? 0
          then inject_Z 0
          else Qdiv (inject_Z (class_hits c matched_rows_sample))
                    (inject_Z (class_predictions c predictions_A2))) /\
       cm_size m = class_support c matched_rows_sample).
Proof.
  apply (compute_class_recall_metrics matched_rows_sample predictions_A2).
  exists (match_row 0 (Some 0%nat) (inject_Z 1) (Some "Tree"%string) "Tree" (Some true)).
  split; [left; reflexivity | reflexivity].
Defined.

Section ClassRecallNone.

Variable results : list MatchRow.
Variable predictions : list Box.

Lemma matched_subset_idem : matched_subset (matched_subset results) = matched_subset results.
Proof.
  unfold matched_subset. apply forallb_filter_id.
  apply forallb_forall. intros r Hr. now apply filter_In in Hr.
Qed.

(** C8, as the code has it.  [compute_class_recall] returns [None]
    exactly when no row of the table has [match == true]; and the
    classes, precisions and sizes it returns are those it returns on the
    matched rows alone (the recall also reads the rows that are not
    matched). *)
Theorem compute_class_recall_None_iff :
  (compute_class_recall results predictions = Ok None <->
   (forall r, In r results -> match_ r <> Some true))
  /\ (exists t t',
         compute_class_recall results predictions = Ok t /\
         compute_class_recall (matched_subset results) predictions = Ok t' /\
         option_map (map without_recall) t = option_map (map without_recall) t').
Proof.
  split.
  - rewrite compute_class_recall_closed, <- matched_subset_empty.
    destruct (empty (matched_subset results)); split; intros H;
      try reflexivity; try discriminate.
  - rewrite !compute_class_recall_closed, matched_subset_idem.
    do 2 eexists. split; [reflexivity | split; [reflexivity|]].
    destruct (empty (matched_subset results)); [reflexivity|].
    cbn [option_map]. f_equal. rewrite !map_map.
    apply map_ext. intros c.
    unfold without_recall, class_row, class_hits, class_support. cbn.
    now rewrite matched_subset_idem.
Qed.

End ClassRecallNone.

(** C8, as the specification words it, fails: the output is not computed
    from the rows with [match == true] alone.  With a tree that was found
    and a tree that was missed the recall is 1/2; on the matched rows
    alone it is 1. *)
Lemma compute_class_recall_reads_unmatched_rows :
  exists t t',
    compute_class_recall matched_rows_missed predictions_A = Ok (Some t) /\
    compute_class_recall (matched_subset matched_rows_missed) predictions_A = Ok (Some t') /\
    map cm_recall t = [Qmake 1 2] /\
    map cm_recall t' = [Qmake 1 1] /\
    t <> t'.
Proof.
  do 2 eexists. split; [vm_compute; reflexivity|]. split; [vm_compute; reflexivity|].
  split; [reflexivity|]. split; [reflexivity|]. discriminate.
Qed.

(* ================================================================== *)
(** ** The loop over the images *)

Lemma truediv_Ok (a b : Z) (q : Q) :
  truediv a b = Ok q -> b <> 0 /\ q = Qdiv (inject_Z a) (inject_Z b).
Proof.
  unfold truediv. destruct (Z.eqb_spec b 0); intros H; [discriminate|].
  injection H as <-. auto.
Qed.

Lemma truediv_nonzero (a b : Z) :
  b <> 0 -> truediv a b = Ok (Qdiv (inject_Z a) (inject_Z b)).
Proof. unfold truediv. destruct (Z.eqb_spec b 0); [contradiction | reflexivity]. Qed.

Lemma match_stamp (path : string) (thr : Q) (raw : list MatchRow) :
  map match_ (map (stamp path thr) raw) = map Some (map (fun r => Qgtb (IoU r) thr) raw).
Proof. rewrite !map_map. reflexivity. Qed.

Lemma count_over_threshold (thr : Q) (raw : list MatchRow) (pairs : list IoURow) :
  map IoU raw = map iou_IoU pairs ->
  count (fun r => Qgtb (IoU r) thr) raw = count (fun x => Qgtb (iou_IoU x) thr) pairs.
Proof.
  intros H.
  rewrite <- (count_map (fun q => Qgtb q thr) IoU), H.
  apply count_map.
Qed.

Section LoopFacts.

Variable compute_IoU : list Box -> list Box -> list IoURow.
Variable overlay_error : string -> option exn.
Variable predictions : list Box.
Variable root_dir : string.
Variable iou_threshold : Q.
Variable savedir : option string.

Let body := loop_body compute_IoU overlay_error predictions root_dir iou_threshold savedir.
Let table := image_table compute_IoU overlay_error predictions root_dir iou_threshold savedir.
Let recall_of := image_recall compute_IoU predictions iou_threshold.
Let precision_of := image_precision compute_IoU predictions iou_threshold.

Lemma loop_body_Ok (st st' : LoopState) (g : string * list (nat * Box)) :
  body st g = Ok st' ->
  exists rows,
    table g rows /\
    ls_results st' = ls_results st ++ [rows] /\
    box_recalls st' = box_recalls st ++ [recall_of g] /\
    box_precisions st'
    = box_precisions st ++ (if has_predictions predictions g then [precision_of g] else []).
Proof.
  subst body table recall_of precision_of.
  destruct g as [path group].
  unfold loop_body, image_table, image_recall, image_precision, has_predictions,
    image_matched, image_pairs.
  cbn [fst snd].
  destruct (empty (image_predictions_of predictions path)) eqn:E; cbn [negb]; intros H.
  - injection H as <-. eexists. split; [reflexivity|]. cbn.
    rewrite app_nil_r. auto.
  - bind_inv H. rename v into raw. bind_inv H. bind_inv H. bind_inv H.
    injection H as <-. cbn.
    destruct (evaluate_image_rows _ _ _ _ _ _ _ Hv) as [HI HL].
    rewrite match_stamp in Hv0. unfold py_sum in Hv0.
    rewrite py_sum_from_Some in Hv0. injection Hv0 as <-.
    rewrite count_map, (count_over_threshold _ _ _ HI) in Hv1, Hv2.
    rewrite shape0_map in Hv1.
    apply truediv_Ok in Hv1. destruct Hv1 as [_ ->].
    apply truediv_Ok in Hv2. destruct Hv2 as [_ ->].
    exists (map (stamp path iou_threshold) raw).
    split; [exists raw; auto|].
    unfold shape0. rewrite HL. auto.
Qed.

Lemma loop_Ok (groups : list (string * list (nat * Box))) (st st' : LoopState) :
  foldM body groups st = Ok st' ->
  exists tables,
    Forall2 table groups tables /\
    ls_results st' = ls_results st ++ tables /\
    box_recalls st' = box_recalls st ++ map recall_of groups /\
    box_precisions st'
    = box_precisions st ++ map precision_of (filter (has_predictions predictions) groups).
Proof.
  revert st; induction groups as [|g gs IH]; intros st H; cbn [foldM] in H.
  - injection H as <-. exists []. cbn. rewrite !app_nil_r. auto using Forall2_nil.
  - bind_inv H. apply loop_body_Ok in Hv.
    destruct Hv as (rows & Ht & Hr & Hrec & Hprec).
    apply IH in H. destruct H as (tables & HF & Hr' & Hrec' & Hprec').
    exists (rows :: tables). split; [constructor; assumption|].
    rewrite Hr', Hrec', Hprec', Hr, Hrec, Hprec, <- !app_assoc.
    cbn [filter map]. destruct (has_predictions predictions g); auto.
Qed.

(** Rows of an image with predictions carry the comparison with the
    threshold; rows of an image without predictions carry no match and
    the IoU 0. *)
Lemma table_rows (g : string * list (nat * Box)) (rows : list MatchRow) (r : MatchRow) :
  table g rows -> In r rows ->
  match_ r = Some (Qgtb (IoU r) iou_threshold)
  \/ (match_ r = None /\ IoU r = inject_Z 0 /\ prediction_id r = None
      /\ predicted_label r = None).
Proof.
  subst table. unfold image_table.
  destruct (has_predictions predictions g).
  - intros [raw [_ ->]] Hin. apply in_map_iff in Hin.
    destruct Hin as [r0 [<- _]]. left. reflexivity.
  - intros -> Hin. apply in_map_iff in Hin.
    destruct Hin as [t [<- _]]. right. cbn. auto.
Qed.

Lemma tables_rows (groups : list (string * list (nat * Box)))
      (tables : list (list MatchRow)) (r : MatchRow) :
  Forall2 table groups tables -> In r (List.concat tables) ->
  match_ r = Some (Qgtb (IoU r) iou_threshold)
  \/ (match_ r = None /\ IoU r = inject_Z 0 /\ prediction_id r = None
      /\ predicted_label r = None).
Proof.
  induction 1 as [|g rows gs ts Hg _ IH]; cbn [List.concat]; [contradiction|].
  rewrite in_app_iff. intros [Hin|Hin]; [eapply table_rows; eauto | auto].
Qed.

(** With a matcher that returns one row per ground-truth rectangle, an
    image contributes as many rows as it has ground-truth rows. *)
Lemma table_length (g : string * list (nat * Box)) (rows : list MatchRow) :
  (forall gt p, List.length (compute_IoU gt p) = List.length gt) ->
  table g rows -> shape0 rows = shape0 (snd g).
Proof.
  intros Hc. subst table. unfold image_table, shape0.
  destruct (has_predictions predictions g).
  - intros [raw [Hraw ->]]. apply evaluate_image_rows in Hraw.
    destruct Hraw as [_ HL]. rewrite !length_map, HL, Hc, length_map. reflexivity.
  - intros ->. now rewrite length_map.
Qed.

Lemma tables_length (groups : list (string * list (nat * Box)))
      (tables : list (list MatchRow)) :
  (forall gt p, List.length (compute_IoU gt p) = List.length gt) ->
  Forall2 table groups tables ->
  shape0 (List.concat tables) = fold_right Z.add 0 (map (fun g => shape0 (snd g)) groups).
Proof.
  intros Hc. induction 1 as [|g rows gs ts Hg _ IH]; cbn [List.concat map fold_right].
  - reflexivity.
  - rewrite shape0_app, IH, (table_length g rows Hc Hg). reflexivity.
Qed.

End LoopFacts.

(* ================================================================== *)
(** ** The dataset evaluator *)

Lemma try_truediv (a b : Z) :
  try_except (truediv a b) (inject_Z 0)
  = if b =? 0 then inject_Z 0 else Qdiv (inject_Z a) (inject_Z b).
Proof. unfold truediv. destruct (b =? 0); reflexivity. Qed.

(** [sum(df_iou["correct"])] counts the rows over the fixed threshold
    whose two labels agree. *)
Lemma true_positives_count (rows : list MatchRow) :
  sum_ints (map (fun r => if label_cell_eqb (predicted_label r) (true_label r) then 1 else 0)
                (filter (fun r => Qgtb (IoU r) float_0_4) rows))
  = count correct_over_0_4 rows.
Proof.
  rewrite (sum_ints_indicator
             (fun r => label_cell_eqb (predicted_label r) (true_label r))).
  apply count_filter.
Qed.

Lemma count_erase_match (rows : list MatchRow) :
  count correct_over_0_4 (map erase_match rows) = count correct_over_0_4 rows.
Proof. rewrite count_map. reflexivity. Qed.

Section EvaluateFacts.

Variable compute_IoU : list Box -> list Box -> list IoURow.
Variable check_file : list Box -> pyresult unit.
Variable overlay_error : string -> option exn.
Variable predictions : list Box.
Variable root_dir : string.
Variable savedir : option string.

Let run := evaluate compute_IoU check_file overlay_error predictions.
Let body := loop_body compute_IoU overlay_error predictions root_dir.
Let table := image_table compute_IoU overlay_error predictions root_dir.

Lemma evaluate_Ok (ground_df : list Box) (thr : Q) (average : bool)
      (res : EvaluationResult) :
  run ground_df root_dir thr savedir average = Ok res ->
  exists st,
    foldM (body thr savedir) (image_groups ground_df) loop_init = Ok st /\
    ls_results st <> [] /\
    results res = List.concat (ls_results st) /\
    box_precision res
    = (if average then np_mean (box_precisions st)
       else Fin (try_except (s <- py_sum (map match_ (results res)) ;;
                             truediv s (shape0 predictions)) (inject_Z 0))) /\
    box_recall res
    = (if average then np_mean (box_recalls st)
       else Fin (try_except (s <- py_sum (map match_ (results res)) ;;
                             truediv s (shape0 (results res))) (inject_Z 0))) /\
    compute_class_recall (results res) predictions = Ok (class_recall res) /\
    let TP := count correct_over_0_4 (results res) in
    overall_precision res
    = try_except (truediv TP (TP + (shape0 predictions - TP))) (inject_Z 0) /\
    overall_recall res
    = try_except (truediv TP (TP + (shape0 (results res) - TP))) (inject_Z 0).
Proof.
  subst run body. unfold evaluate. intros H.
  bind_inv H. bind_inv H. bind_inv H. rename v1 into st.
  bind_inv H. rename v1 into rows. bind_inv H. injection H as <-.
  cbn [results box_precision box_recall class_recall overall_precision overall_recall].
  assert (Hc : ls_results st <> [] /\ rows = List.concat (ls_results st)).
  { unfold pd_concat in Hv2. destruct (ls_results st); [discriminate|].
    injection Hv2 as <-. split; [discriminate | reflexivity]. }
  destruct Hc as [Hne ->].
  exists st. rewrite !true_positives_count.
  repeat (split; [first [assumption | reflexivity]|]).
  reflexivity.
Qed.

(** What [evaluate] returns when it returns, in terms of the image
    groups. *)
Lemma evaluate_tables (ground_df : list Box) (thr : Q) (average : bool)
      (res : EvaluationResult) :
  run ground_df root_dir thr savedir average = Ok res ->
  exists tables,
    Forall2 (table thr savedir) (image_groups ground_df) tables /\
    results res = List.concat tables /\
    (average = true ->
     box_recall res
     = np_mean (map (image_recall compute_IoU predictions thr) (image_groups ground_df)) /\
     box_precision res
     = np_mean (map (image_precision compute_IoU predictions thr)
                    (filter (has_predictions predictions) (image_groups ground_df)))).
Proof.
  intros H. apply evaluate_Ok in H.
  destruct H as (st & Hloop & _ & Hres & Hp & Hr & _).
  apply loop_Ok in Hloop. destruct Hloop as (tables & HF & Hr' & Hrec & Hprec).
  exists tables. cbn in Hr', Hrec, Hprec. rewrite Hr' in Hres.
  split; [exact HF|]. split; [exact Hres|].
  intros ->. rewrite Hr, Hp, Hrec, Hprec. auto.
Qed.

Lemma evaluate_results_length (ground_df : list Box) (thr : Q) (average : bool)
      (res : EvaluationResult) :
  (forall gt p, List.length (compute_IoU gt p) = List.length gt) ->
  run ground_df root_dir thr savedir average = Ok res ->
  shape0 (results res) = shape0 ground_df.
Proof.
  intros Hc H. apply evaluate_tables in H. destruct H as (tables & HF & -> & _).
  rewrite (tables_length _ _ _ _ _ _ _ _ Hc HF). unfold image_groups.
  rewrite groupby_partition. unfold shape0. now rewrite indexed_length.
Qed.

(** C6. With [average=True], [box_recall] is the mean of the per-image
    recalls over all image groups, an image without predictions counting
    with recall 0, and [box_precision] is the mean of the per-image
    precisions over the image groups that have predictions. *)
Theorem evaluate_macro (ground_df : list Box) (thr : Q) (res : EvaluationResult) :
  run ground_df root_dir thr savedir true = Ok res ->
  box_recall res
  = np_mean (map (fun g => if has_predictions predictions g
                           then Qdiv (inject_Z (image_matched compute_IoU predictions thr g))
                                     (inject_Z (shape0 (image_pairs compute_IoU predictions g)))
                           else inject_Z 0)
                 (image_groups ground_df)) /\
  box_precision res
  = np_mean (map (fun g => Qdiv (inject_Z (image_matched compute_IoU predictions thr g))
                                (inject_Z (shape0 (image_predictions_of predictions (fst g)))))
                 (filter (has_predictions predictions) (image_groups ground_df))).
Proof.
  intros H. apply evaluate_tables in H. destruct H as (tables & _ & _ & Hm).
  exact (Hm eq_refl).
Qed.

End EvaluateFacts.

Section ResultsNonempty.

Variable compute_IoU : list Box -> list Box -> list IoURow.
Variable check_file : list Box -> pyresult unit.
Variable overlay_error : string -> option exn.
Variable predictions : list Box.
Variable root_dir : string.
Variable savedir : option string.

Let body := loop_body compute_IoU overlay_error predictions root_dir.

(** An image contributes at least one row: an image without predictions
    one per ground-truth row, an image with predictions the rows whose
    number divides the recall. *)
Lemma loop_body_rows_nonempty (thr : Q) (st st' : LoopState)
      (g : string * list (nat * Box)) :
  snd g <> [] ->
  Forall (fun t => t <> []) (ls_results st) ->
  body thr savedir st g = Ok st' ->
  Forall (fun t => t <> []) (ls_results st').
Proof.
  subst body. destruct g as [path group]. cbn [snd]. intros Hg Hst. unfold loop_body.
  destruct (empty (image_predictions_of predictions path)); intros H.
  - injection H as <-. cbn [ls_results]. apply Forall_app. split; [exact Hst|].
    constructor; [|constructor]. destruct group; [congruence | discriminate].
  - bind_inv H. rename v into raw. bind_inv H. bind_inv H. bind_inv H.
    injection H as <-. cbn [ls_results]. apply Forall_app. split; [exact Hst|].
    constructor; [|constructor].
    apply truediv_Ok in Hv1. destruct Hv1 as [Hn _].
    intros E. rewrite E in Hn. apply Hn. reflexivity.
Qed.

Lemma loop_rows_nonempty (thr : Q) (groups : list (string * list (nat * Box)))
      (st st' : LoopState) :
  Forall (fun g => snd g <> []) groups ->
  Forall (fun t => t <> []) (ls_results st) ->
  foldM (body thr savedir) groups st = Ok st' ->
  Forall (fun t => t <> []) (ls_results st').
Proof.
  intros Hg. revert st. induction Hg as [|g gs Hg _ IH]; intros st Hst H; cbn [foldM] in H.
  - now injection H as <-.
  - bind_inv H. eapply IH; [|exact H].
    eapply loop_body_rows_nonempty; eauto.
Qed.

(** The table that [evaluate] returns has at least one row. *)
Lemma evaluate_results_nonempty (ground_df : list Box) (thr : Q) (average : bool)
      (res : EvaluationResult) :
  evaluate compute_IoU check_file overlay_error predictions ground_df root_dir
           thr savedir average = Ok res ->
  0 < shape0 (results res).
Proof.
  intros H. apply evaluate_Ok in H.
  destruct H as (st & Hloop & Hne & Hres & _).
  assert (HF : Forall (fun t => t <> []) (ls_results st)).
  { eapply (loop_rows_nonempty thr (image_groups ground_df) loop_init);
      [|constructor|exact Hloop].
    apply Forall_forall. intros [k grp] Hin. cbn [snd].
    eapply groupby_nonempty. exact Hin. }
  rewrite Hres. destruct (ls_results st) as [|t ts]; [congruence|].
  inversion HF as [|? ? Ht _]; subst. cbn [List.concat]. rewrite shape0_app.
  assert (0 < shape0 t) by (destruct t; [congruence | unfold shape0; cbn; lia]).
  assert (0 <= shape0 (List.concat ts)) by (unfold shape0; lia).
  lia.
Qed.

End ResultsNonempty.

Section ThresholdFacts.

Variable compute_IoU : list Box -> list Box -> list IoURow.
Variable check_file : list Box -> pyresult unit.
Variable overlay_error : string -> option exn.
Variable predictions : list Box.
Variable root_dir : string.
Variable savedir : option string.

Let run := evaluate compute_IoU check_file overlay_error predictions.
Let table := image_table compute_IoU overlay_error predictions root_dir.

(** The threshold only shows in the [match] column. *)
Lemma tables_erase_match (groups : list (string * list (nat * Box))) (thr thr' : Q)
      (tables tables' : list (list MatchRow)) :
  Forall2 (table thr savedir) groups tables ->
  Forall2 (table thr' savedir) groups tables' ->
  map erase_match (List.concat tables) = map erase_match (List.concat tables').
Proof.
  intros H. revert tables'.
  induction H as [|g rows gs ts Hg _ IH]; intros tables' H'; inversion H'; subst.
  - reflexivity.
  - cbn [List.concat]. rewrite !map_app. f_equal; [|now apply IH].
    subst table. unfold image_table in *.
    destruct (has_predictions predictions g).
    + destruct Hg as [raw [Hraw ->]].
      match goal with
      | Hx : exists _, _ /\ _ |- _ => destruct Hx as [raw' [Hraw' ->]]
      end.
      assert (raw' = raw) by congruence. subst raw'.
      rewrite !map_map. reflexivity.
    + congruence.
Qed.

Lemma evaluate_erase_match (ground_df : list Box) (thr thr' : Q) (average average' : bool)
      (res res' : EvaluationResult) :
  run ground_df root_dir thr savedir average = Ok res ->
  run ground_df root_dir thr' savedir average' = Ok res' ->
  map erase_match (results res) = map erase_match (results res').
Proof.
  intros H H'.
  apply evaluate_tables in H. destruct H as (tables & HF & -> & _).
  apply evaluate_tables in H'. destruct H' as (tables' & HF' & -> & _).
  eapply tables_erase_match; eauto.
Qed.

(** C2, as the code has it.  On every run that returns, the label-aware
    metrics count as true positives the rows with [IoU > 0.4] whose
    predicted label is the true label; with FP = predictions - TP and
    FN = result rows - TP, [overall_precision] is TP/(TP+FP), or 0 when
    that divisor is 0, and [overall_recall] is TP/(TP+FN), whose divisor
    is never 0.  The result rows are as many as the ground-truth rows
    when the matcher returns one row per ground-truth rectangle.
    Neither metric depends on the [iou_threshold] (or on [average])
    that [evaluate] is called with. *)
Theorem evaluate_overall_metrics (ground_df : list Box) (thr : Q) (average : bool)
        (res : EvaluationResult) :
  run ground_df root_dir thr savedir average = Ok res ->
  let TP := count correct_over_0_4 (results res) in
  let FP := shape0 predictions - TP in
  let FN := shape0 (results res) - TP in
  overall_precision res
  = (if TP + FP =? 0 then inject_Z 0 else Qdiv (inject_Z TP) (inject_Z (TP + FP))) /\
  0 < TP + FN /\
  overall_recall res = Qdiv (inject_Z TP) (inject_Z (TP + FN)) /\
  ((forall gt p, List.length (compute_IoU gt p) = List.length gt) ->
   shape0 (results res) = shape0 ground_df) /\
  (forall thr' average' res',
      run ground_df root_dir thr' savedir average' = Ok res' ->
      overall_precision res' = overall_precision res /\
      overall_recall res' = overall_recall res).
Proof.
  intros H TP FP FN.
  pose proof (evaluate_Ok _ _ _ _ _ _ _ _ _ _ H) as (st & _ & _ & _ & _ & _ & _ & Hp & Hr).
  pose proof (evaluate_results_nonempty _ _ _ _ _ _ _ _ _ _ H) as Hpos.
  cbn zeta in Hp, Hr. rewrite try_truediv in Hp, Hr.
  assert (Hden : 0 < TP + FN) by (subst TP FN; lia).
  split; [exact Hp|]. split; [exact Hden|]. split; [|split].
  - rewrite Hr. fold TP. fold FN.
    destruct (Z.eqb_spec (TP + FN) 0) as [E|_]; [lia | reflexivity].
  - intros Hc.
    exact (evaluate_results_length _ _ _ _ _ _ _ _ _ _ Hc H).
  - intros thr' average' res' H'.
    pose proof (evaluate_Ok _ _ _ _ _ _ _ _ _ _ H')
      as (st' & _ & _ & _ & _ & _ & _ & Hp' & Hr').
    cbn zeta in Hp', Hr'.
    pose proof (evaluate_erase_match _ _ _ _ _ _ _ H H') as E.
    assert (Ec : count correct_over_0_4 (results res')
                 = count correct_over_0_4 (results res))
      by (rewrite <- (count_erase_match (results res')), <- E; apply count_erase_match).
    assert (Es : shape0 (results res') = shape0 (results res))
      by (rewrite <- (shape0_map erase_match (results res')), <- E; apply shape0_map).
    rewrite Hp', Hr', Ec, Es, try_truediv, try_truediv.
    split; [exact (eq_sym Hp) | exact (eq_sym Hr)].
Qed.

(** C3, as the code has it.  With a threshold that is not negative, a
    row of the returned table has [match == true] exactly when its IoU
    exceeds the threshold; a row whose [match] is [None] has IoU 0. *)
Theorem evaluate_match_iff (ground_df : list Box) (thr : Q) (average : bool)
        (res : EvaluationResult) :
  (0 <= thr)%Q ->
  run ground_df root_dir thr savedir average = Ok res ->
  Forall (fun r => (match_ r = Some true <-> (thr < IoU r)%Q)
                   /\ (match_ r = None -> IoU r = inject_Z 0))
         (results res).
Proof.
  intros Hthr H. apply evaluate_tables in H. destruct H as (tables & HF & -> & _).
  apply Forall_forall. intros r Hr.
  destruct (tables_rows _ _ _ _ _ _ _ _ r HF Hr) as [Hm | (Hm & HI & _)]; rewrite Hm.
  - split; [|discriminate]. rewrite <- Qgtb_lt. split; congruence.
  - split; [|auto]. rewrite HI. split; [discriminate|].
    intros Hlt. exfalso. exact (Qlt_not_le _ _ Hlt Hthr).
Qed.

End ThresholdFacts.

Section LoopWithoutPredictions.

Variable compute_IoU : list Box -> list Box -> list IoURow.
Variable overlay_error : string -> option exn.
Variable predictions : list Box.
Variable root_dir : string.
Variable iou_threshold : Q.
Variable savedir : option string.

(** C5. For an image group without predictions the loop of [evaluate]
    appends one table with one row per ground-truth row of the group,
    each with no [prediction_id], IoU 0, no [match] and no
    [predicted_label]; it appends the recall 0 to [box_recalls] and
    nothing to [box_precisions]. *)
Theorem loop_body_without_predictions (st : LoopState) (path : string)
        (group : list (nat * Box)) :
  image_predictions_of predictions path = [] ->
  exists rows,
    loop_body compute_IoU overlay_error predictions root_dir iou_threshold savedir
              st (path, group)
    = Ok {| ls_results := ls_results st ++ [rows];
            box_recalls := box_recalls st ++ [inject_Z 0];
            box_precisions := box_precisions st |}
    /\ Forall2 (fun t r => truth_id r = fst t /\ true_label r = label (snd t) /\
                           prediction_id r = None /\ IoU r = inject_Z 0 /\
                           match_ r = None /\ predicted_label r = None)
               group rows.
Proof.
  intros H. unfold loop_body. rewrite H. cbn [empty].
  eexists. split; [reflexivity|].
  induction group as [|t ts IH]; cbn [map]; constructor;
    [cbn; repeat split | exact IH].
Qed.

End LoopWithoutPredictions.

(* ================================================================== *)
(** ** Micro-averaged box precision and recall *)

Lemma py_sum_all_Some (cells : list (option bool)) :
  ~ In None cells -> py_sum cells = Ok (count cell_is_1 cells).
Proof.
  unfold py_sum.
  assert (G : forall acc, ~ In None cells ->
                          py_sum_from acc cells = Ok (acc + count cell_is_1 cells)).
  { induction cells as [|c cs IH]; intros acc H; cbn [py_sum_from].
    - unfold count, shape0; cbn. f_equal; lia.
    - destruct c as [b|]; [|exfalso; apply H; left; reflexivity].
      rewrite IH by (intros Hc; apply H; right; exact Hc).
      rewrite count_cons. f_equal. destruct b; cbn [cell_is_1 Z.b2z]; lia. }
  intros H. rewrite (G 0 H). reflexivity.
Qed.

Lemma Forall2_Exists_l {A B : Type} (R : A -> B -> Prop) (P : A -> Prop)
      (l : list A) (l' : list B) :
  Forall2 R l l' -> Exists P l -> exists x y, In x l /\ In y l' /\ R x y /\ P x.
Proof.
  induction 1 as [|x y xs ys Hxy _ IH]; intros HE; inversion HE; subst.
  - exists x, y. cbn. auto.
  - destruct (IH H0) as (x' & y' & Hx & Hy & HR & HP).
    exists x', y'. cbn. auto.
Qed.

Section MicroFacts.

Variable compute_IoU : list Box -> list Box -> list IoURow.
Variable check_file : list Box -> pyresult unit.
Variable overlay_error : string -> option exn.
Variable predictions : list Box.
Variable root_dir : string.
Variable savedir : option string.

Let run := evaluate compute_IoU check_file overlay_error predictions.
Let table := image_table compute_IoU overlay_error predictions root_dir.

Lemma predicted_tables_cells (groups : list (string * list (nat * Box))) (thr : Q)
      (tables : list (list MatchRow)) :
  Forall2 (table thr savedir) groups tables ->
  Forall (fun g => has_predictions predictions g = true) groups ->
  ~ In None (map match_ (List.concat tables)).
Proof.
  induction 1 as [|g rows gs ts Hg _ IH]; intros HP; [auto|].
  inversion HP as [|? ? Hg1 Hgs]; subst.
  cbn [List.concat]. rewrite map_app, in_app_iff. intros [Hin|Hin]; [|now apply IH].
  subst table. unfold image_table in Hg. rewrite Hg1 in Hg.
  destruct Hg as [raw [_ ->]]. rewrite match_stamp in Hin.
  apply in_map_iff in Hin. destruct Hin as [b [Hb _]]. discriminate.
Qed.

(** X18. When every image of the ground truth has a prediction, the
    micro averages are the matched rows over the predictions and over
    the result rows, and neither divisor is 0. *)
Lemma evaluate_micro_every_image_predicted (ground_df : list Box) (thr : Q)
      (res : EvaluationResult) :
  run ground_df root_dir thr savedir false = Ok res ->
  Forall (fun g => has_predictions predictions g = true) (image_groups ground_df) ->
  let matched := count (fun r => cell_is_1 (match_ r)) (results res) in
  0 < shape0 predictions /\
  0 < shape0 (results res) /\
  box_precision res = Fin (Qdiv (inject_Z matched) (inject_Z (shape0 predictions))) /\
  box_recall res = Fin (Qdiv (inject_Z matched) (inject_Z (shape0 (results res)))).
Proof.
  intros H HP matched. unfold run in H.
  pose proof (evaluate_Ok _ _ _ _ _ _ _ _ _ _ H) as (st & Hloop & Hne & _ & Hp & Hr & _).
  pose proof (evaluate_results_nonempty _ _ _ _ _ _ _ _ _ _ H) as Hrows.
  apply evaluate_tables in H. destruct H as (tables & HF & Hres & _).
  assert (Hpred : 0 < shape0 predictions).
  { apply loop_Ok in Hloop. destruct Hloop as (ts & HF0 & Hts & _).
    cbn [ls_results loop_init app] in Hts.
    destruct (image_groups ground_df) as [|g gs].
    - inversion HF0; subst. congruence.
    - pose proof (Forall_inv HP) as Hg. cbv beta in Hg. unfold has_predictions in Hg.
      unfold image_predictions_of in Hg.
      destruct predictions; [discriminate | unfold shape0; cbn; lia]. }
  assert (Hs : py_sum (map match_ (results res)) = Ok matched).
  { rewrite py_sum_all_Some; [subst matched; now rewrite count_map|].
    rewrite Hres. eapply predicted_tables_cells; eauto. }
  rewrite Hs in Hp, Hr. cbn [bind] in Hp, Hr.
  rewrite try_truediv in Hp, Hr.
  destruct (Z.eqb_spec (shape0 predictions) 0) as [E|_]; [lia|].
  destruct (Z.eqb_spec (shape0 (results res)) 0) as [E|_]; [lia|].
  auto.
Qed.

(** When some image of the ground truth has no prediction, the [match]
    column holds a [None], [sum] raises a [TypeError], and the bare
    [except] turns both micro averages into 0. *)
Lemma evaluate_micro_some_image_unpredicted (ground_df : list Box) (thr : Q)
      (res : EvaluationResult) :
  run ground_df root_dir thr savedir false = Ok res ->
  Exists (fun g => has_predictions predictions g = false) (image_groups ground_df) ->
  box_precision res = Fin (inject_Z 0) /\ box_recall res = Fin (inject_Z 0).
Proof.
  intros H HE. unfold run in H.
  pose proof (evaluate_Ok _ _ _ _ _ _ _ _ _ _ H) as (st & _ & _ & _ & Hp & Hr & _).
  apply evaluate_tables in H. destruct H as (tables & HF & Hres & _).
  destruct (Forall2_Exists_l _ _ _ _ HF HE) as (g & rows & Hg & Hrows & Ht & Hno).
  assert (Hs : py_sum (map match_ (results res)) = Raise TypeError).
  { apply py_sum_from_None. rewrite Hres.
    subst table. unfold image_table in Ht. rewrite Hno in Ht. subst rows.
    destruct g as [k grp]. apply groupby_nonempty in Hg.
    destruct grp as [|t ts]; [contradiction|].
    apply in_map_iff. exists (unpredicted_row t). split; [reflexivity|].
    apply in_concat. eexists. split; [exact Hrows|]. left. reflexivity. }
  rewrite Hs in Hp, Hr. auto.
Qed.

(** X19. Without ground-truth rows there is no image group, and
    [pd.concat] of no table raises a [ValueError]. *)
Lemma evaluate_without_ground_truth (thr : Q) (average : bool) :
  check_file [] = Ok tt -> check_file predictions = Ok tt ->
  run [] root_dir thr savedir average = Raise (ValueError "No objects to concatenate").
Proof.
  intros H1 H2. subst run. unfold evaluate. rewrite H1, H2. reflexivity.
Qed.

End MicroFacts.

(** C1 at a failing input.  Image A has one ground-truth box and the
    prediction that matches it, image B has one ground-truth box and no
    prediction: one matched row, one prediction, two ground-truth rows.
    In micro mode [evaluate] returns [box_precision = 0] and
    [box_recall = 0], where the claim asks for 1/1 and 1/2. *)
Theorem evaluate_micro_unpredicted_image :
  exists res,
    evaluate positional_IoU accept_file no_image predictions_A truth_AB
             "root" float_0_4 None false = Ok res /\
    count (fun r => cell_is_1 (match_ r)) (results res) = 1 /\
    shape0 predictions_A = 1 /\
    shape0 truth_AB = 2 /\
    box_precision res = Fin (inject_Z 0) /\
    box_recall res = Fin (inject_Z 0).
Proof.
  eexists. split; [vm_compute; reflexivity|].
  vm_compute. repeat split.
Qed.

(* ================================================================== *)
(** ** Concrete runs *)

Lemma positional_IoU_length (ground_df predictions : list Box) :
  List.length (positional_IoU ground_df predictions) = List.length ground_df.
Proof. unfold positional_IoU. now rewrite length_map, indexed_length. Qed.

(** The macro averages on images A and B: the recalls 1 and 0 have the
    mean 1/2, and the only precision, that of image A, is 1. *)
Lemma evaluate_macro_witness :
  exists res,
    evaluate positional_IoU accept_file no_image predictions_A truth_AB
             "root" float_0_4 None true = Ok res /\
    box_recall res
    = np_mean (map (fun g => if has_predictions predictions_A g
                             then Qdiv (inject_Z (image_matched positional_IoU predictions_A
                                                                float_0_4 g))
                                       (inject_Z (shape0 (image_pairs positional_IoU
                                                                      predictions_A g)))
                             else inject_Z 0)
                   (image_groups truth_AB)) /\
    box_precision res
    = np_mean (map (fun g => Qdiv (inject_Z (image_matched positional_IoU predictions_A
                                                           float_0_4 g))
                                  (inject_Z (shape0 (image_predictions_of predictions_A
                                                                          (fst g)))))
                   (filter (has_predictions predictions_A) (image_groups truth_AB))).
Proof.
  eexists. split; [vm_compute; reflexivity|].
  apply (evaluate_macro positional_IoU accept_file no_image predictions_A
           "root" None truth_AB float_0_4).
  vm_compute. reflexivity.
Defined.

(** The label-aware metrics on image A with two trees, one of them
    predicted as a shrub. *)
Lemma evaluate_overall_metrics_witness :
  exists res,
    evaluate positional_IoU accept_file no_image predictions_A2 truth_A2
             "root" float_0_4 None false = Ok res /\
    let TP := count correct_over_0_4 (results res) in
    let FP := shape0 predictions_A2 - TP in
    let FN := shape0 (results res) - TP in
    overall_precision res
    = (if TP + FP =? 0 then inject_Z 0 else Qdiv (inject_Z TP) (inject_Z (TP + FP))) /\
    0 < TP + FN /\
    overall_recall res = Qdiv (inject_Z TP) (inject_Z (TP + FN)) /\
    ((forall gt p, List.length (positional_IoU gt p) = List.length gt) ->
     shape0 (results res) = shape0 truth_A2) /\
    (forall thr' average' res',
        evaluate positional_IoU accept_file no_image predictions_A2 truth_A2
                 "root" thr' None average' = Ok res' ->
        overall_precision res' = overall_precision res /\
        overall_recall res' = overall_recall res).
Proof.
  eexists. split; [vm_compute; reflexivity|].
  apply (evaluate_overall_metrics positional_IoU accept_file no_image predictions_A2
           "root" None truth_A2 float_0_4 false).
  vm_compute. reflexivity.
Defined.

(** C2, as the specification words it, fails without ground-truth rows:
    TP + FN would be 0 there, and [evaluate] does not return an
    [overall_recall] of 0, it raises. *)
Lemma evaluate_overall_recall_without_ground_truth :
  shape0 (@nil Box) = 0 /\
  evaluate positional_IoU accept_file no_image predictions_A [] "root" float_0_4 None false
  = Raise (ValueError "No objects to concatenate") /\
  ~ (exists res,
        evaluate positional_IoU accept_file no_image predictions_A []
                 "root" float_0_4 None false = Ok res
        /\ overall_recall res = inject_Z 0).
Proof.
  split; [reflexivity|]. split; [reflexivity|].
  intros [res [H _]]. vm_compute in H. discriminate.
Qed.

(** The [match] column on images A and B with the threshold 0.4. *)
Lemma evaluate_match_iff_witness :
  exists res,
    evaluate positional_IoU accept_file no_image predictions_A truth_AB
             "root" float_0_4 None false = Ok res /\
    Forall (fun r => (match_ r = Some true <-> (float_0_4 < IoU r)%Q)
                     /\ (match_ r = None -> IoU r = inject_Z 0))
           (results res).
Proof.
  eexists. split; [vm_compute; reflexivity|].
  apply (evaluate_match_iff positional_IoU accept_file no_image predictions_A
           "root" None truth_AB float_0_4 false).
  - unfold Qle, float_0_4. simpl. lia.
  - vm_compute. reflexivity.
Defined.

(** C3, as the specification words it, fails for a negative threshold:
    with the threshold -1 the row of image B, which has no prediction,
    has the IoU 0 > -1 and no [match]. *)
Lemma evaluate_match_negative_threshold :
  exists res,
    evaluate positional_IoU accept_file no_image predictions_A truth_AB
             "root" (inject_Z (-1)) None false = Ok res /\
    ~ Forall (fun r => match_ r = Some true <-> (inject_Z (-1) < IoU r)%Q) (results res).
Proof.
  eexists. split; [vm_compute; reflexivity|].
  intros HF. rewrite Forall_forall in HF.
  specialize (HF (unpredicted_row (1%nat, box "B.tif" 0 0 10 10 "Tree"))).
  destruct HF as [_ HF].
  - right. left. reflexivity.
  - discriminate HF. unfold Qlt. simpl. lia.
Qed.

(** The loop body on image B, which has no prediction. *)
Lemma loop_body_without_predictions_witness :
  exists rows,
    loop_body positional_IoU no_image predictions_A "root" float_0_4 None
              loop_init ("B.tif"%string, [(1%nat, box "B.tif" 0 0 10 10 "Tree")])
    = Ok {| ls_results := ls_results loop_init ++ [rows];
            box_recalls := box_recalls loop_init ++ [inject_Z 0];
            box_precisions := box_precisions loop_init |}
    /\ Forall2 (fun t r => truth_id r = fst t /\ true_label r = label (snd t) /\
                           prediction_id r = None /\ IoU r = inject_Z 0 /\
                           match_ r = None /\ predicted_label r = None)
               [(1%nat, box "B.tif" 0 0 10 10 "Tree")] rows.
Proof.
  apply (loop_body_without_predictions positional_IoU no_image predictions_A
           "root" float_0_4 None loop_init "B.tif").
  reflexivity.
Defined.

(* ================================================================== *)
(** ** When [evaluate] returns *)

Lemma unique_constant (l : list string) (k : string) :
  l <> [] -> (forall x, In x l -> x = k) -> unique l = [k].
Proof.
  destruct l as [|x xs]; [congruence|]. intros _ H. cbn [unique].
  rewrite (H x (or_introl eq_refl)). f_equal.
  assert (G : forall ys, (forall y, In y ys -> y = k) ->
                         filter (fun y => negb (String.eqb y k)) ys = []).
  { induction ys as [|y ys IH]; intros Hy; [reflexivity|]. cbn [filter].
    rewrite (Hy y (or_introl eq_refl)), String.eqb_refl. cbn [negb].
    apply IH. intros; apply Hy; right; assumption. }
  apply G. intros y Hy. apply H. right. exact (proj1 (unique_In _ _) Hy).
Qed.

Section Returns.

Variable compute_IoU : list Box -> list Box -> list IoURow.
Variable check_file : list Box -> pyresult unit.
Variable overlay_error : string -> option exn.
Variable predictions : list Box.
Variable root_dir : string.
Variable iou_threshold : Q.
Variable savedir : option string.

Hypothesis matcher_rows :
  forall gt p, List.length (compute_IoU gt p) = List.length gt.
Hypothesis matcher_ids :
  forall gt p, Forall (ids_in_range gt p) (compute_IoU gt p).
Hypothesis overlay_succeeds :
  truthy savedir = true -> forall path, overlay_error path = None.

Lemma attach_labels_returns (p gt : list Box) (x : IoURow) :
  ids_in_range gt p x -> exists r, attach_labels p gt x = Ok r.
Proof.
  intros [Ht Hp]. unfold attach_labels, loc.
  destruct (nth_error gt (iou_truth_id x)) as [t|] eqn:Et;
    [|apply nth_error_None in Et; lia].
  destruct (iou_prediction_id x) as [i|].
  - destruct (nth_error p i) as [b|] eqn:Eb; [|apply nth_error_None in Eb; lia].
    cbn. eexists; reflexivity.
  - cbn. eexists; reflexivity.
Qed.

Lemma evaluate_image_returns (path : string) (gt : list Box) :
  image_predictions_of predictions path <> [] ->
  gt <> [] ->
  exists rows,
    evaluate_image compute_IoU overlay_error (image_predictions_of predictions path) gt
                   root_dir savedir = Ok rows.
Proof.
  intros Hne Hgt. unfold evaluate_image.
  rewrite (unique_constant _ path).
  - cbn [List.length Nat.ltb Nat.leb getitem nth_error bind].
    rewrite !set_geometry_rows by assumption. cbn [bind].
    destruct (mapM_total (attach_labels (image_predictions_of predictions path) gt)
                         (compute_IoU gt (image_predictions_of predictions path)))
      as [rows Hrows].
    { intros x Hx. apply attach_labels_returns.
      exact (proj1 (Forall_forall _ _) (matcher_ids _ _) x Hx). }
    rewrite Hrows. cbn [bind].
    destruct (truthy savedir) eqn:Es.
    + rewrite (overlay_succeeds eq_refl). cbn. eexists; reflexivity.
    + cbn. eexists; reflexivity.
  - intros E. apply map_eq_nil in E. contradiction.
  - intros x Hx. apply in_map_iff in Hx. destruct Hx as [b [<- Hb]].
    apply filter_In in Hb. now apply String.eqb_eq.
Qed.

Lemma loop_body_returns (st : LoopState) (g : string * list (nat * Box)) :
  snd g <> [] ->
  exists st',
    loop_body compute_IoU overlay_error predictions root_dir iou_threshold savedir st g
    = Ok st'.
Proof.
  destruct g as [path group]. cbn [snd]. intros Hg. unfold loop_body.
  destruct (empty (image_predictions_of predictions path)) eqn:E;
    [eexists; reflexivity|].
  assert (Hne : image_predictions_of predictions path <> [])
    by (intros E'; rewrite E' in E; discriminate).
  assert (Hgt : map snd group <> [])
    by (intros E'; apply map_eq_nil in E'; contradiction).
  destruct (evaluate_image_returns path (map snd group) Hne Hgt) as [raw Hraw].
  rewrite Hraw. cbn [bind].
  rewrite match_stamp. unfold py_sum. rewrite py_sum_from_Some. cbn [bind].
  apply evaluate_image_rows in Hraw. destruct Hraw as [_ HL].
  rewrite !truediv_nonzero; [cbn [bind]; eexists; reflexivity | |].
  - apply empty_false_shape0 in E. lia.
  - unfold shape0. rewrite length_map, HL, matcher_rows, length_map.
    destruct group; [congruence | cbn; lia].
Qed.

Lemma loop_returns (groups : list (string * list (nat * Box))) (st : LoopState) :
  Forall (fun g => snd g <> []) groups ->
  exists st',
    foldM (loop_body compute_IoU overlay_error predictions root_dir iou_threshold savedir)
          groups st = Ok st'.
Proof.
  intros H. revert st. induction H as [|g gs Hg _ IH]; intros st; cbn [foldM].
  - eexists; reflexivity.
  - destruct (loop_body_returns st g Hg) as [st' ->]. cbn [bind]. apply IH.
Qed.

(** X20. With tables that the format checker accepts, at least one
    ground-truth row, a matcher that keeps its contract and an overlay
    that can be written, [evaluate] returns a result. *)
Lemma evaluate_returns (ground_df : list Box) (average : bool) :
  check_file ground_df = Ok tt ->
  check_file predictions = Ok tt ->
  ground_df <> [] ->
  exists res,
    evaluate compute_IoU check_file overlay_error predictions ground_df root_dir
             iou_threshold savedir average = Ok res.
Proof.
  intros H1 H2 Hne. unfold evaluate. rewrite H1, H2. cbn [bind].
  fold (image_groups ground_df).
  destruct (loop_returns (image_groups ground_df) loop_init) as [st Hst].
  { apply Forall_forall. intros [k g] Hg. cbn [snd].
    eapply groupby_nonempty. exact Hg. }
  rewrite Hst. cbn [bind].
  apply loop_Ok in Hst. destruct Hst as (tables & HF & Hr & _).
  cbn [ls_results loop_init app] in Hr.
  assert (Ht : tables <> []).
  { apply Forall2_length_eq in HF. intros ->. cbn in HF.
    apply length_zero_iff_nil in HF.
    assert (Hin : In (image_path (hd (Build_Box "" 0 0 0 0 "") ground_df))
                     (group_keys (fun r => image_path (snd r)) (indexed ground_df))).
    { apply group_keys_In. rewrite <- (map_map snd image_path), indexed_rows.
      destruct ground_df; [congruence | left; reflexivity]. }
    rewrite <- groupby_keys in Hin. unfold image_groups in HF. rewrite HF in Hin.
    exact Hin. }
  rewrite Hr. unfold pd_concat. destruct tables as [|t ts]; [congruence|].
  cbn [bind]. rewrite compute_class_recall_closed. cbn [bind].
  eexists; reflexivity.
Qed.

End Returns.

(* ================================================================== *)
(** ** Every ground-truth row is accounted for *)

Lemma filter_none {A : Type} (l : list A) : filter (fun _ => false) l = [].
Proof. induction l; auto. Qed.

Lemma groups_permutation {A : Type} (key : A -> string) (df : list A) (keys : list string) :
  NoDup keys ->
  Permutation (List.concat (map (fun k => filter (fun r => String.eqb (key r) k) df) keys))
              (filter (fun r => existsb (String.eqb (key r)) keys) df).
Proof.
  intros Hnd. induction Hnd as [|k ks Hk Hnd IH]; cbn [map List.concat existsb].
  - rewrite filter_none. constructor.
  - etransitivity; [apply Permutation_app_head; exact IH|]. clear IH.
    induction df as [|r rs IHr]; [constructor|]. cbn [filter].
    destruct (String.eqb_spec (key r) k) as [E|E]; cbn [orb app].
    + assert (Hex : existsb (String.eqb (key r)) ks = false).
      { destruct (existsb (String.eqb (key r)) ks) eqn:Ex; auto.
        apply existsb_exists in Ex. destruct Ex as [k' [Hin Hk']].
        apply String.eqb_eq in Hk'. subst. contradiction. }
      rewrite Hex. now constructor.
    + destruct (existsb (String.eqb (key r)) ks).
      * etransitivity; [apply Permutation_sym, Permutation_middle|]. now constructor.
      * exact IHr.
Qed.

Lemma groupby_permutation {A : Type} (key : A -> string) (df : list A) :
  Permutation (List.concat (map snd (groupby key df))) df.
Proof.
  unfold groupby. rewrite map_map. cbn [snd]. fold (group_keys key df).
  etransitivity; [apply groups_permutation, group_keys_NoDup|].
  rewrite forallb_filter_id; [reflexivity|].
  apply forallb_forall. intros r Hr.
  apply existsb_exists. exists (key r). split; [|apply String.eqb_refl].
  apply group_keys_In. now apply in_map.
Qed.

Lemma map_nth_seq {A : Type} (l : list A) (d : A) :
  map (fun i => nth i l d) (seq 0 (List.length l)) = l.
Proof.
  induction l as [|x xs IH]; [reflexivity|].
  cbn [List.length seq map nth]. f_equal.
  rewrite <- seq_shift, map_map. exact IH.
Qed.

Lemma concat_permutation {A B : Type} (f : A -> list B) (l : list A) (l' : list (list B)) :
  Forall2 (fun a b => Permutation b (f a)) l l' ->
  Permutation (List.concat l') (List.concat (map f l)).
Proof.
  induction 1; cbn [map List.concat]; [constructor|].
  now apply Permutation_app.
Qed.

Section TruthRows.

Variable compute_IoU : list Box -> list Box -> list IoURow.
Variable check_file : list Box -> pyresult unit.
Variable overlay_error : string -> option exn.
Variable predictions : list Box.
Variable root_dir : string.
Variable savedir : option string.

(** The matcher names every ground-truth rectangle once. *)
Hypothesis matcher_truth_ids :
  forall gt p, Permutation (map iou_truth_id (compute_IoU gt p)) (seq 0 (List.length gt)).

Lemma attached_true_labels (p gt : list Box) (pairs : list IoURow) (raw : list MatchRow) :
  Forall2 (fun x r => attach_labels p gt x = Ok r) pairs raw ->
  map true_label raw
  = map (fun i => label (nth i gt (Build_Box "" 0 0 0 0 ""))) (map iou_truth_id pairs).
Proof.
  induction 1 as [|x r xs rs Hx _ IH]; [reflexivity|].
  cbn [map]. rewrite IH. f_equal.
  apply attach_labels_Ok in Hx. destruct Hx as (_ & _ & _ & _ & t & Ht & ->).
  now rewrite (nth_error_nth _ _ _ Ht).
Qed.

Lemma table_true_labels (thr : Q) (g : string * list (nat * Box)) (rows : list MatchRow) :
  image_table compute_IoU overlay_error predictions root_dir thr savedir g rows ->
  Permutation (map true_label rows) (map (fun t => label (snd t)) (snd g)).
Proof.
  unfold image_table. destruct (has_predictions predictions g).
  - intros [raw [Hraw ->]]. rewrite map_map. cbn [stamp true_label].
    change (Permutation (map true_label raw) (map (fun t => label (snd t)) (snd g))).
    apply evaluate_image_Ok in Hraw.
    rewrite (attached_true_labels _ _ _ _ Hraw).
    rewrite <- (map_map snd label (snd g)).
    rewrite <- (map_nth_seq (map snd (snd g)) (Build_Box "" 0 0 0 0 "")) at 2.
    rewrite (map_map _ label). apply Permutation_map. apply matcher_truth_ids.
  - intros ->. rewrite map_map. reflexivity.
Qed.

(** X21. When the matcher names every ground-truth rectangle once, the
    [true_label] column of the result is the ground truth's [label]
    column, up to the order of the rows. *)
Lemma evaluate_true_labels (ground_df : list Box) (thr : Q) (average : bool)
      (res : EvaluationResult) :
  evaluate compute_IoU check_file overlay_error predictions ground_df root_dir
           thr savedir average = Ok res ->
  Permutation (map true_label (results res)) (map label ground_df).
Proof.
  intros H. apply evaluate_tables in H. destruct H as (tables & HF & -> & _).
  rewrite concat_map.
  etransitivity.
  - apply (concat_permutation (fun g => map (fun t => label (snd t)) (snd g))
                              (image_groups ground_df)).
    clear -HF matcher_truth_ids.
    induction HF as [|g rows gs ts Hg _ IH]; cbn [map]; constructor; auto.
    eapply table_true_labels; exact Hg.
  - rewrite <- (map_map snd (map (fun t : nat * Box => label (snd t)))).
    rewrite <- concat_map.
    rewrite <- (indexed_rows ground_df) at 2. rewrite (map_map snd label).
    apply Permutation_map. apply groupby_permutation.
Qed.

End TruthRows.

Lemma nth_error_map_inv {A B : Type} (f : A -> B) (l : list A) (i : nat) (b : B) :
  nth_error (map f l) i = Some b -> exists a, nth_error l i = Some a /\ f a = b.
Proof.
  revert i. induction l as [|x xs IH]; intros [|i] H; cbn in H; try discriminate.
  - injection H as <-. exists x. auto.
  - now apply IH.
Qed.

Section TruthRowsOnce.

Variable compute_IoU : list Box -> list Box -> list IoURow.
Variable check_file : list Box -> pyresult unit.
Variable overlay_error : string -> option exn.
Variable predictions : list Box.
Variable root_dir : string.
Variable savedir : option string.

(** The matcher returns one row per ground-truth rectangle. *)
Hypothesis matcher_one_row_per_truth :
  forall gt p, Permutation (map iou_truth_id (compute_IoU gt p)) (seq 0 (List.length gt)).

Let table := image_table compute_IoU overlay_error predictions root_dir.

Lemma matcher_row_count (gt p : list Box) :
  List.length (compute_IoU gt p) = List.length gt.
Proof.
  rewrite <- (length_map iou_truth_id).
  rewrite (Permutation_length (matcher_one_row_per_truth gt p)). apply length_seq.
Qed.

(** The rows of an image stand for the ground-truth rows of the image,
    each for another one. *)
Lemma table_truth_rows (truth : list (nat * Box)) (thr : Q)
      (g : string * list (nat * Box)) (rows : list MatchRow) :
  table thr savedir g rows ->
  snd g = filter (fun u => String.eqb (image_path (snd u)) (fst g)) truth ->
  exists truths, Permutation truths (snd g) /\ Forall2 (stands_for truth) truths rows.
Proof.
  subst table. unfold image_table. intros Ht Hg.
  destruct (has_predictions predictions g).
  - destruct Ht as [raw [Hraw ->]]. apply evaluate_image_Ok in Hraw.
    set (d := (0%nat, Build_Box "" (inject_Z 0) (inject_Z 0) (inject_Z 0) (inject_Z 0) "")).
    exists (map (fun x => nth (iou_truth_id x) (snd g) d)
                (compute_IoU (map snd (snd g)) (image_predictions_of predictions (fst g)))).
    split.
    + rewrite <- (map_map iou_truth_id (fun i => nth i (snd g) d)).
      rewrite <- (map_nth_seq (snd g) d) at 2.
      apply Permutation_map.
      rewrite <- (length_map snd (snd g)). apply matcher_one_row_per_truth.
    + induction Hraw as [|x r xs rs Hx _ IH]; cbn [map]; [constructor|].
      constructor; [|exact IH].
      apply attach_labels_Ok in Hx. destruct Hx as (Hid & _ & _ & _ & b & Hb & Hl).
      apply nth_error_map_inv in Hb. destruct Hb as [a [Ha Hab]].
      rewrite (nth_error_nth _ _ d Ha).
      unfold stands_for. cbn [stamp true_label result_image_path truth_id].
      split; [congruence|]. rewrite <- Hg, Hid. exact Ha.
  - subst rows. exists (snd g). split; [apply Permutation_refl|]. clear Hg.
    induction (snd g) as [|t ts IH]; cbn [map]; [constructor|].
    constructor; [split; reflexivity | exact IH].
Qed.

Lemma tables_truth_rows (truth : list (nat * Box)) (thr : Q)
      (groups : list (string * list (nat * Box))) (tables : list (list MatchRow)) :
  Forall2 (table thr savedir) groups tables ->
  Forall (fun g => snd g = filter (fun u => String.eqb (image_path (snd u)) (fst g)) truth)
         groups ->
  exists truths,
    Permutation truths (List.concat (map snd groups)) /\
    Forall2 (stands_for truth) truths (List.concat tables).
Proof.
  induction 1 as [|g rows gs ts Hg _ IH]; intros HG.
  - exists []. split; constructor.
  - inversion HG as [|? ? Hg1 Hgs]; subst.
    destruct (table_truth_rows truth thr g rows Hg Hg1) as (t1 & P1 & F1).
    destruct (IH Hgs) as (t2 & P2 & F2).
    exists (t1 ++ t2). cbn [map List.concat]. split.
    + now apply Permutation_app.
    + now apply Forall2_app.
Qed.

(** C9. If the matcher returns one row per ground-truth rectangle, the
    table that [evaluate] returns has as many rows as the image groups of
    the ground truth have together, which is the number of rows of the
    ground-truth table, and every ground-truth row appears in exactly one
    row of the result: the rows of the result, in their order, stand for
    the rows of a rearrangement of the ground-truth table, each carrying
    the label of its ground-truth row and naming it by its index (a row
    of an image without predictions) or by its position among the
    ground-truth rows of its image. *)
Theorem evaluate_truth_rows_once (ground_df : list Box) (thr : Q) (average : bool)
        (res : EvaluationResult) :
  evaluate compute_IoU check_file overlay_error predictions ground_df root_dir
           thr savedir average = Ok res ->
  shape0 (results res)
  = fold_right Z.add 0 (map (fun g => shape0 (snd g)) (image_groups ground_df)) /\
  shape0 (results res) = shape0 ground_df /\
  exists truths : list (nat * Box),
    Permutation truths (indexed ground_df) /\
    Forall2 (stands_for (indexed ground_df)) truths (results res).
Proof.
  intros H.
  pose proof (evaluate_results_length _ _ _ _ _ _ _ _ _ _ matcher_row_count H) as Hlen.
  apply evaluate_tables in H. destruct H as (tables & HF & Hres & _).
  rewrite Hres in *.
  split; [|split; [exact Hlen|]].
  - eapply tables_length; [exact matcher_row_count | exact HF].
  - destruct (tables_truth_rows (indexed ground_df) thr _ _ HF) as (truths & P & F).
    + apply Forall_forall. intros [k grp] Hin. unfold image_groups in Hin.
      apply groupby_In in Hin. cbn [fst snd]. tauto.
    + exists truths. split; [|exact F].
      etransitivity; [exact P|]. apply groupby_permutation.
Qed.

End TruthRowsOnce.

(* ================================================================== *)
(** ** The matcher of the concrete runs keeps the contract *)

Lemma indexed_ids {A : Type} (df : list A) : map fst (indexed df) = seq 0 (List.length df).
Proof.
  unfold indexed. generalize 0%nat.
  induction df as [|x xs IH]; intros n; cbn; [reflexivity|].
  now rewrite IH.
Qed.

Lemma positional_pair_truth_id (predictions : list Box) (g : nat * Box) :
  iou_truth_id (positional_pair predictions g) = fst g.
Proof.
  unfold positional_pair.
  destruct (nth_error predictions (fst g)); [|reflexivity].
  destruct (Qgtb _ _); reflexivity.
Qed.

Lemma positional_IoU_truth_ids (ground_df predictions : list Box) :
  map iou_truth_id (positional_IoU ground_df predictions) = seq 0 (List.length ground_df).
Proof.
  unfold positional_IoU. rewrite map_map, <- indexed_ids.
  apply map_ext. intros g. apply positional_pair_truth_id.
Qed.

Lemma positional_IoU_ids_in_range (ground_df predictions : list Box) :
  Forall (ids_in_range ground_df predictions) (positional_IoU ground_df predictions).
Proof.
  apply Forall_forall. intros x Hx. unfold positional_IoU in Hx.
  apply in_map_iff in Hx. destruct Hx as [g [<- Hg]].
  assert (Hi : (fst g < List.length ground_df)%nat).
  { apply (in_map fst) in Hg. rewrite indexed_ids in Hg.
    apply in_seq in Hg. lia. }
  split; [now rewrite positional_pair_truth_id|].
  unfold positional_pair.
  destruct (nth_error predictions (fst g)) eqn:E; cbn; [|exact I].
  destruct (Qgtb _ _); cbn; [|exact I].
  apply nth_error_Some. congruence.
Qed.

(** The three examples of the specification. *)

(** Two trees in image A, both found exactly and with the right label. *)
Example example_exact_predictions :
  exists res,
    evaluate positional_IoU accept_file no_image truth_A2 truth_A2
             "root" float_0_4 None false = Ok res /\
    (exists p r, box_precision res = Fin p /\ box_recall res = Fin r /\
                 Qeq p (inject_Z 1) /\ Qeq r (inject_Z 1)) /\
    (exists m, class_recall res = Some [m] /\ cm_label m = "Tree"%string /\
               Qeq (cm_recall m) (inject_Z 1) /\ Qeq (cm_precision m) (inject_Z 1) /\
               cm_size m = 2).
Proof.
  eexists. split; [vm_compute; reflexivity|]. split.
  - do 2 eexists. cbn [box_precision box_recall].
    split; [reflexivity|]. split; [reflexivity|]. split; reflexivity.
  - eexists. cbn [class_recall]. split; [reflexivity|]. repeat split.
Qed.

(** One tree in image B and no prediction at all. *)
Example example_no_predictions :
  exists res,
    evaluate positional_IoU accept_file no_image [] [box "B.tif" 0 0 10 10 "Tree"]
             "root" float_0_4 None false = Ok res /\
    box_precision res = Fin (inject_Z 0) /\
    box_recall res = Fin (inject_Z 0) /\
    class_recall res = None.
Proof.
  eexists. split; [vm_compute; reflexivity|]. repeat split.
Qed.

(** A tree found with IoU above the threshold but as a shrub: a match for
    the box metrics, not a true positive of the label-aware metrics. *)
Example example_wrong_label :
  exists res,
    evaluate positional_IoU accept_file no_image
             [box "A.tif" 0 0 10 10 "Shrub"] [box "A.tif" 0 0 10 10 "Tree"]
             "root" float_0_4 None false = Ok res /\
    map match_ (results res) = [Some true] /\
    box_recall res = Fin (inject_Z 1) /\
    overall_precision res = inject_Z 0 /\
    overall_recall res = inject_Z 0.
Proof.
  eexists. split; [vm_compute; reflexivity|]. repeat split.
Qed.

(* ================================================================== *)
(** ** More on the per-image evaluator *)

Lemma mapM_Raise {A B : Type} (f : A -> pyresult B) (l : list A) (err : exn) :
  (forall x e, In x l -> f x = Raise e -> e = err) ->
  Exists (fun x => exists e, f x = Raise e) l ->
  mapM f l = Raise err.
Proof.
  induction l as [|x xs IH]; intros Hall Hex; [inversion Hex|].
  cbn [mapM]. destruct (f x) as [y|e] eqn:Ex; cbn [bind].
  - rewrite IH; [reflexivity | intros; eapply Hall; eauto; now right |].
    inversion Hex as [? ? [e He]|]; subst; [congruence | assumption].
  - f_equal. eapply Hall; eauto. now left.
Qed.

Lemma attach_labels_error (predictions ground_df : list Box) (x : IoURow) (e : exn) :
  attach_labels predictions ground_df x = Raise e -> e = KeyError.
Proof.
  unfold attach_labels, loc.
  destruct (iou_prediction_id x) as [i|]; [destruct (nth_error predictions i)|];
    cbn [bind]; try (intros H; congruence);
    destruct (nth_error ground_df (iou_truth_id x)); cbn [bind]; intros H; congruence.
Qed.

Lemma attach_labels_in_range (predictions ground_df : list Box) (x : IoURow) (r : MatchRow) :
  attach_labels predictions ground_df x = Ok r -> ids_in_range ground_df predictions x.
Proof.
  unfold attach_labels, loc, ids_in_range. intros H.
  destruct (iou_prediction_id x) as [i|].
  - destruct (nth_error predictions i) eqn:Ei; cbn [bind] in H; [|discriminate].
    destruct (nth_error ground_df (iou_truth_id x)) eqn:Et; cbn [bind] in H; [|discriminate].
    split; apply nth_error_Some; congruence.
  - cbn [bind] in H.
    destruct (nth_error ground_df (iou_truth_id x)) eqn:Et; cbn [bind] in H; [|discriminate].
    split; [apply nth_error_Some; congruence | exact I].
Qed.

Lemma attach_labels_predicted (predictions ground_df : list Box) (x : IoURow) (r : MatchRow) :
  attach_labels predictions ground_df x = Ok r ->
  predicted_label r
  = match prediction_id r with
    | Some i => nth_error (map label predictions) i
    | None => None
    end.
Proof.
  unfold attach_labels, loc. intros H.
  destruct (iou_prediction_id x) as [i|] eqn:Ep.
  - destruct (nth_error predictions i) as [b|] eqn:Ei; cbn [bind] in H; [|discriminate].
    destruct (nth_error ground_df (iou_truth_id x)); cbn [bind] in H; [|discriminate].
    injection H as <-. cbn. symmetry. now apply map_nth_error.
  - cbn [bind] in H.
    destruct (nth_error ground_df (iou_truth_id x)); cbn [bind] in H; [|discriminate].
    injection H as <-. reflexivity.
Qed.

Section EvaluateImageMore.

Variable compute_IoU : list Box -> list Box -> list IoURow.
Variable overlay_error : string -> option exn.

(** With one distinct path and a ground truth with rows the function is
    the labelling of the pairing table followed by the overlay. *)
Lemma evaluate_image_one_plot (predictions ground_df : list Box) (root_dir : string)
      (savedir : option string) (path : string) :
  unique (map image_path predictions) = [path] ->
  ground_df <> [] ->
  evaluate_image compute_IoU overlay_error predictions ground_df root_dir savedir
  = (result <- mapM (attach_labels predictions ground_df)
                    (compute_IoU ground_df predictions) ;;
     _ <- (if truthy savedir
           then match overlay_error (join_path root_dir path) with
                | Some e => Raise e
                | None => Ok tt
                end
           else Ok tt) ;;
     Ok result).
Proof.
  intros H Hg. unfold evaluate_image. rewrite H.
  cbn [List.length Nat.ltb Nat.leb getitem nth_error bind].
  rewrite (set_geometry_rows predictions) by (destruct predictions; discriminate).
  rewrite (set_geometry_rows ground_df Hg). reflexivity.
Qed.

(** On a ground truth without rows the geometry cannot be set: the call
    fails before the matcher is asked. *)
Lemma evaluate_image_no_ground_truth (predictions : list Box) (root_dir : string)
      (savedir : option string) (path : string) :
  unique (map image_path predictions) = [path] ->
  exists msg,
    evaluate_image compute_IoU overlay_error predictions [] root_dir savedir
    = Raise (ValueError msg).
Proof.
  intros H. unfold evaluate_image. rewrite H.
  cbn [List.length Nat.ltb Nat.leb getitem nth_error bind].
  rewrite (set_geometry_rows predictions) by (destruct predictions; discriminate).
  eexists. reflexivity.
Qed.

(** X1. [evaluate_image] returns the pairing table of the matcher row by
    row and in its order: every row keeps its [truth_id], [prediction_id]
    and IoU, and has no [match] and no [image_path] column yet. *)
Theorem evaluate_image_keeps_pairs (predictions ground_df : list Box) (root_dir : string)
        (savedir : option string) (rows : list MatchRow) :
  evaluate_image compute_IoU overlay_error predictions ground_df root_dir savedir = Ok rows ->
  map (fun r => (truth_id r, prediction_id r, IoU r)) rows
  = map (fun x => (iou_truth_id x, iou_prediction_id x, iou_IoU x))
        (compute_IoU ground_df predictions)
  /\ Forall (fun r => match_ r = None /\ result_image_path r = None) rows.
Proof.
  intros H. apply evaluate_image_Ok in H.
  induction H as [|x r xs rs Hx _ [IH1 IH2]]; [split; constructor|].
  unfold attach_labels in Hx. bind_inv Hx. bind_inv Hx. injection Hx as <-.
  cbn [map truth_id prediction_id IoU]. rewrite IH1.
  split; [reflexivity | constructor; [split; reflexivity | exact IH2]].
Qed.

(** X2. The labels that [evaluate_image] attaches: [true_label] is the
    label of the ground-truth row that [truth_id] names, and
    [predicted_label] is the label of the prediction that [prediction_id]
    names, or [None] when there is no [prediction_id]. *)
Theorem evaluate_image_labels (predictions ground_df : list Box) (root_dir : string)
        (savedir : option string) (rows : list MatchRow) :
  evaluate_image compute_IoU overlay_error predictions ground_df root_dir savedir = Ok rows ->
  Forall (fun r =>
            nth_error (map label ground_df) (truth_id r) = Some (true_label r) /\
            predicted_label r
            = match prediction_id r with
              | Some i => nth_error (map label predictions) i
              | None => None
              end)
         rows.
Proof.
  intros H. apply evaluate_image_Ok in H.
  induction H as [|x r xs rs Hx _ IH]; constructor; [|exact IH].
  split; [|eapply attach_labels_predicted; exact Hx].
  apply attach_labels_Ok in Hx. destruct Hx as (-> & _ & _ & _ & t & Ht & ->).
  now apply map_nth_error.
Qed.

(** X3. When the predictions belong to one image, the ground truth has
    a row and the pairing table names a ground-truth row or a prediction
    that does not exist, the label lookup fails: [evaluate_image] raises
    a [KeyError]. *)
Theorem evaluate_image_KeyError (predictions ground_df : list Box) (root_dir : string)
        (savedir : option string) (path : string) :
  unique (map image_path predictions) = [path] ->
  ground_df <> [] ->
  Exists (fun x => ~ ids_in_range ground_df predictions x)
         (compute_IoU ground_df predictions) ->
  evaluate_image compute_IoU overlay_error predictions ground_df root_dir savedir
  = Raise KeyError.
Proof.
  intros Hp Hg Hex. rewrite (evaluate_image_one_plot _ _ _ _ _ Hp Hg).
  rewrite (mapM_Raise _ _ KeyError); [reflexivity | |].
  - intros x e _. apply attach_labels_error.
  - apply Exists_exists in Hex. destruct Hex as [x [Hx Hn]].
    apply Exists_exists. exists x. split; [exact Hx|].
    destruct (attach_labels predictions ground_df x) as [r|e] eqn:E; [|eauto].
    exfalso. apply Hn. eapply attach_labels_in_range; eauto.
Qed.

(** X4. When an overlay is asked for and making it raises (the image
    cannot be opened, or is not a colour image), the call is not
    skipped: once the labels are attached, [evaluate_image] raises that
    exception and returns no table. *)
Theorem evaluate_image_overlay_raises (predictions ground_df : list Box)
        (root_dir : string) (savedir : option string) (path : string) (e : exn) :
  unique (map image_path predictions) = [path] ->
  ground_df <> [] ->
  Forall (ids_in_range ground_df predictions) (compute_IoU ground_df predictions) ->
  truthy savedir = true ->
  overlay_error (join_path root_dir path) = Some e ->
  evaluate_image compute_IoU overlay_error predictions ground_df root_dir savedir
  = Raise e.
Proof.
  intros Hp Hg Hids Hs Hr. rewrite (evaluate_image_one_plot _ _ _ _ _ Hp Hg).
  destruct (mapM_total (attach_labels predictions ground_df)
                       (compute_IoU ground_df predictions)) as [rows ->].
  - intros x Hx. apply (attach_labels_returns predictions ground_df x).
    exact (proj1 (Forall_forall _ _) Hids x Hx).
  - cbn [bind]. rewrite Hs, Hr. reflexivity.
Qed.

(** X5. [evaluate_image] returns a table exactly when the predictions
    carry one distinct [image_path], the ground truth has a row, every
    identifier of the pairing table names an existing row, and the
    overlay, if one is asked for, raises nothing. *)
Theorem evaluate_image_returns_iff (predictions ground_df : list Box) (root_dir : string)
        (savedir : option string) :
  (exists rows,
      evaluate_image compute_IoU overlay_error predictions ground_df root_dir savedir
      = Ok rows)
  <->
  (exists path,
      unique (map image_path predictions) = [path] /\
      ground_df <> [] /\
      Forall (ids_in_range ground_df predictions) (compute_IoU ground_df predictions) /\
      (truthy savedir = true -> overlay_error (join_path root_dir path) = None)).
Proof.
  split.
  - intros [rows H].
    assert (Hp : exists path, unique (map image_path predictions) = [path]).
    { unfold evaluate_image in H.
      destruct (unique (map image_path predictions)) as [|p [|q ps]];
        cbn in H; try discriminate. eauto. }
    destruct Hp as [path Hp]. exists path. split; [exact Hp|].
    assert (Hg : ground_df <> []).
    { intros ->.
      destruct (evaluate_image_no_ground_truth predictions root_dir savedir path Hp)
        as [msg E].
      rewrite E in H. discriminate. }
    split; [exact Hg|].
    rewrite (evaluate_image_one_plot _ _ _ _ _ Hp Hg) in H.
    bind_inv H. bind_inv H. split.
    + apply mapM_Ok in Hv. apply Forall_forall. intros x Hx.
      clear -Hv Hx. induction Hv as [|a b l l' Hab _ IH]; [contradiction|].
      destruct Hx as [<-|Hx]; [eapply attach_labels_in_range; eauto | auto].
    + intros Hs. rewrite Hs in Hv0.
      destruct (overlay_error (join_path root_dir path)); [discriminate | reflexivity].
  - intros (path & Hp & Hg & Hids & Hio).
    rewrite (evaluate_image_one_plot _ _ _ _ _ Hp Hg).
    destruct (mapM_total (attach_labels predictions ground_df)
                         (compute_IoU ground_df predictions)) as [rows ->].
    + intros x Hx. apply (attach_labels_returns predictions ground_df x).
      exact (proj1 (Forall_forall _ _) Hids x Hx).
    + cbn [bind]. destruct (truthy savedir); [rewrite (Hio eq_refl)|];
        cbn [bind]; eexists; reflexivity.
Qed.

(** X24. On a ground-truth table without rows (and predictions of one
    image) [evaluate_image] raises a [ValueError] when it sets the
    geometry, whatever the matcher would have returned. *)
Theorem evaluate_image_without_ground_truth (predictions : list Box) (root_dir : string)
        (savedir : option string) :
  List.length (unique (map image_path predictions)) = 1%nat ->
  exists msg,
    evaluate_image compute_IoU overlay_error predictions [] root_dir savedir
    = Raise (ValueError msg).
Proof.
  intros H.
  destruct (unique (map image_path predictions)) as [|p [|q ps]] eqn:E;
    try discriminate.
  exact (evaluate_image_no_ground_truth predictions root_dir savedir p E).
Qed.

End EvaluateImageMore.

(* ================================================================== *)
(** ** More on the per-class metrics *)

Lemma count_le {A : Type} (f g : A -> bool) (l : list A) :
  (forall x, In x l -> f x = true -> g x = true) -> count f l <= count g l.
Proof.
  induction l as [|x xs IH]; intros H; [unfold count, shape0; cbn; lia|].
  rewrite !count_cons.
  assert (IH' : count f xs <= count g xs) by (apply IH; intros; apply H; auto; now right).
  destruct (f x) eqn:Ef; [rewrite (H x (or_introl eq_refl) Ef); lia|].
  destruct (g x); lia.
Qed.

Lemma count_bounds {A : Type} (f : A -> bool) (l : list A) : 0 <= count f l <= shape0 l.
Proof.
  induction l as [|x xs IH]; [unfold count, shape0; cbn; lia|].
  rewrite count_cons. unfold shape0 in *. cbn [List.length]. rewrite Nat2Z.inj_succ.
  destruct (f x); lia.
Qed.

Lemma count_filter_le {A : Type} (f h : A -> bool) (l : list A) :
  count f (filter h l) <= count f l.
Proof.
  rewrite count_filter. apply count_le. intros x _ H.
  apply andb_true_iff in H. tauto.
Qed.

(** A quotient of two counts, the first at most the second, lies between
    0 and 1 (a quotient by 0 is 0 in [Q]). *)
Lemma Qdiv_unit_interval (a b : Z) :
  0 <= a <= b ->
  (0 <= Qdiv (inject_Z a) (inject_Z b))%Q /\ (Qdiv (inject_Z a) (inject_Z b) <= 1)%Q.
Proof.
  intros [Ha Hab]. destruct (Z.eq_dec b 0) as [->|Hb].
  - assert (a = 0) by lia. subst a. split; unfold Qle; cbn; lia.
  - assert (Hpos : (0 < inject_Z b)%Q).
    { change 0%Q with (inject_Z 0). rewrite <- Zlt_Qlt. lia. }
    split.
    + apply Qle_shift_div_l; [exact Hpos|]. rewrite Qmult_0_l.
      change 0%Q with (inject_Z 0). rewrite <- Zle_Qle. exact Ha.
    + apply Qle_shift_div_r; [exact Hpos|]. rewrite Qmult_1_l.
      rewrite <- Zle_Qle. exact Hab.
Qed.

Lemma Qdiv_nonneg (a b : Z) :
  0 <= a -> 0 <= b -> (0 <= Qdiv (inject_Z a) (inject_Z b))%Q.
Proof.
  intros Ha Hb. unfold Qdiv. apply Qmult_le_0_compat.
  - change 0%Q with (inject_Z 0). rewrite <- Zle_Qle. exact Ha.
  - apply Qinv_le_0_compat. change 0%Q with (inject_Z 0). rewrite <- Zle_Qle. exact Hb.
Qed.

Section ClassRecallMore.

Variable results : list MatchRow.
Variable predictions : list Box.

Lemma compute_class_recall_Some (table : list ClassMetrics) :
  compute_class_recall results predictions = Ok (Some table) ->
  table = map (class_row results predictions)
              (group_keys true_label (matched_subset results)).
Proof.
  rewrite compute_class_recall_closed.
  destruct (empty (matched_subset results)); intros H; [discriminate|].
  now injection H as <-.
Qed.

Lemma class_hits_le_support (c : string) : class_hits c results <= class_support c results.
Proof.
  unfold class_hits, class_support. apply count_le.
  intros r _ H. apply andb_true_iff in H. tauto.
Qed.

Lemma class_support_le_truths (c : string) : class_support c results <= class_truths c results.
Proof. unfold class_support, class_truths, matched_subset. apply count_filter_le. Qed.

(** X6. [compute_class_recall] never raises: the divisor of a class's
    recall counts at least the matched rows of that class, so it is not
    0, and the divisor of the precision is tested before it is used. *)
Theorem compute_class_recall_never_raises :
  exists t, compute_class_recall results predictions = Ok t.
Proof. rewrite compute_class_recall_closed. eexists. reflexivity. Qed.

(** X7. The rows of the per-class table come in ascending order of their
    label, the order in which [groupby] hands out the groups. *)
Theorem compute_class_recall_sorted (table : list ClassMetrics) :
  compute_class_recall results predictions = Ok (Some table) ->
  Sorted.Sorted (fun a b => String.leb a b = true) (map cm_label table).
Proof.
  intros H. apply compute_class_recall_Some in H. subst table.
  rewrite map_map. cbn [class_row cm_label]. rewrite map_id.
  unfold group_keys. exact (StringSort.Sorted_sort _).
Qed.

(** X8. The sizes of the per-class table add up to the number of rows
    with [match == true]: every matched row is counted in the one class
    of its true label. *)
Theorem compute_class_recall_sizes (table : list ClassMetrics) :
  compute_class_recall results predictions = Ok (Some table) ->
  fold_right Z.add 0 (map cm_size table)
  = count (fun r => cell_is_1 (match_ r)) results.
Proof.
  intros H. apply compute_class_recall_Some in H. subst table.
  rewrite map_map. cbn [class_row cm_size]. unfold class_support.
  rewrite (group_sizes_sum true_label (matched_subset results))
    by apply group_keys_NoDup.
  transitivity (shape0 (matched_subset results)); [|reflexivity].
  unfold count. rewrite forallb_filter_id; [reflexivity|].
  apply forallb_forall. intros r Hr.
  apply existsb_exists. exists (true_label r). split; [|apply String.eqb_refl].
  apply group_keys_In. now apply in_map.
Qed.

(** X9. In every row of the per-class table the recall lies between 0
    and 1, the precision is not negative and the size is at least 1. *)
Theorem compute_class_recall_bounds (table : list ClassMetrics) :
  compute_class_recall results predictions = Ok (Some table) ->
  Forall (fun m => (0 <= cm_recall m)%Q /\ (cm_recall m <= 1)%Q /\
                   (0 <= cm_precision m)%Q /\ 1 <= cm_size m)
         table.
Proof.
  intros H. apply compute_class_recall_Some in H. subst table.
  apply Forall_forall. intros m Hm. apply in_map_iff in Hm.
  destruct Hm as [c [<- Hc]]. apply group_keys_In in Hc.
  cbn [class_row cm_recall cm_precision cm_size].
  pose proof (class_hits_le_support c) as H1.
  pose proof (class_support_le_truths c) as H2.
  assert (H0 : 0 <= class_hits c results) by apply count_bounds.
  assert (H3 : 0 <= class_predictions c predictions) by apply count_bounds.
  destruct (Qdiv_unit_interval (class_hits c results) (class_truths c results)) as [Ha Hb];
    [lia|].
  split; [exact Ha|]. split; [exact Hb|]. split.
  - destruct (class_predictions c predictions =? 0); [unfold Qle; cbn; lia|].
    now apply Qdiv_nonneg.
  - apply in_map_iff in Hc. destruct Hc as [r [Hr Hin]].
    assert (0 < class_support c results); [|lia].
    unfold class_support. eapply count_pos; [exact Hin|]. now apply String.eqb_eq.
Qed.

End ClassRecallMore.

(* ================================================================== *)
(** ** More on the dataset evaluator: the threshold *)

Lemma py_sum_Ok (cells : list (option bool)) (v : Z) :
  py_sum cells = Ok v -> v = count cell_is_1 cells.
Proof.
  unfold py_sum.
  assert (G : forall acc, py_sum_from acc cells = Ok v -> v = acc + count cell_is_1 cells).
  { induction cells as [|c cs IH]; intros acc H; cbn [py_sum_from] in H.
    - injection H as <-. unfold count, shape0. cbn. lia.
    - destruct c as [b|]; [|discriminate].
      apply IH in H. rewrite H, count_cons. destruct b; cbn [cell_is_1 Z.b2z]; lia. }
  intros H. now rewrite (G 0 H).
Qed.

Lemma Qgtb_antitone (q thr thr' : Q) :
  (thr <= thr')%Q -> Qgtb q thr' = true -> Qgtb q thr = true.
Proof.
  intros Hle H. apply Qgtb_lt. apply Qgtb_lt in H.
  eapply Qle_lt_trans; eauto.
Qed.

Lemma Forall2_count_le {A : Type} (f : A -> bool) (l l' : list A) :
  Forall2 (fun a b => f b = true -> f a = true) l l' -> count f l' <= count f l.
Proof.
  induction 1 as [|a b l l' Hab _ IH]; [lia|].
  rewrite !count_cons. destruct (f b); [rewrite (Hab eq_refl)|destruct (f a)]; lia.
Qed.

Lemma Forall2_concat_In {A B : Type} (R : A -> list B -> Prop) (l : list A)
      (tables : list (list B)) (r : B) :
  Forall2 R l tables -> In r (List.concat tables) ->
  exists a rows, In a l /\ R a rows /\ In r rows.
Proof.
  induction 1 as [|a rows l ts Ha _ IH]; cbn [List.concat]; [contradiction|].
  rewrite in_app_iff. intros [Hin|Hin].
  - exists a, rows. cbn. auto.
  - destruct (IH Hin) as (a' & rows' & Ha' & HR & Hr). exists a', rows'. cbn. auto.
Qed.

Section ThresholdMore.

Variable compute_IoU : list Box -> list Box -> list IoURow.
Variable check_file : list Box -> pyresult unit.
Variable overlay_error : string -> option exn.
Variable predictions : list Box.
Variable root_dir : string.
Variable savedir : option string.

Let run := evaluate compute_IoU check_file overlay_error predictions.
Let body := loop_body compute_IoU overlay_error predictions root_dir.
Let table := image_table compute_IoU overlay_error predictions root_dir.

(** Two runs that differ in the threshold build the same rows, with the
    [match] cell of each run's own threshold. *)
Lemma tables_rowwise (groups : list (string * list (nat * Box))) (thr thr' : Q)
      (tables tables' : list (list MatchRow)) :
  Forall2 (table thr savedir) groups tables ->
  Forall2 (table thr' savedir) groups tables' ->
  Forall2 (fun r r' =>
             erase_match r = erase_match r' /\
             ((match_ r = None /\ match_ r' = None) \/
              (match_ r = Some (Qgtb (IoU r) thr) /\
               match_ r' = Some (Qgtb (IoU r) thr'))))
          (List.concat tables) (List.concat tables').
Proof.
  intros H. revert tables'.
  induction H as [|g rows gs ts Hg _ IH]; intros tables' H'; inversion H'; subst.
  - constructor.
  - cbn [List.concat]. apply Forall2_app; [|now apply IH].
    subst table. unfold image_table in *.
    destruct (has_predictions predictions g).
    + destruct Hg as [raw [Hraw ->]].
      match goal with
      | Hx : exists _, _ /\ _ |- _ => destruct Hx as [raw' [Hraw' ->]]
      end.
      assert (raw' = raw) by congruence. subst raw'.
      clear. induction raw as [|r rs IHr]; cbn [map]; constructor; [|exact IHr].
      split; [reflexivity | right; split; reflexivity].
    + match goal with
      | Hx : _ = map unpredicted_row _ |- _ => rewrite Hx
      end.
      rewrite Hg. clear. induction (snd g) as [|t ts IHt]; cbn [map]; constructor;
        [|exact IHt].
      split; [reflexivity | left; split; reflexivity].
Qed.

Lemma loop_body_any_threshold (thr thr' : Q) (st st1 st' : LoopState)
      (g : string * list (nat * Box)) :
  body thr savedir st g = Ok st1 ->
  exists st1', body thr' savedir st' g = Ok st1'.
Proof.
  subst body. destruct g as [path group]. unfold loop_body.
  destruct (empty (image_predictions_of predictions path)); [eexists; reflexivity|].
  intros H. bind_inv H. rename v into raw. bind_inv H. bind_inv H. bind_inv H.
  rewrite Hv. cbn [bind].
  rewrite match_stamp. unfold py_sum. rewrite py_sum_from_Some. cbn [bind].
  apply truediv_Ok in Hv1. destruct Hv1 as [Hn1 _].
  apply truediv_Ok in Hv2. destruct Hv2 as [Hn2 _].
  rewrite shape0_map in Hn1.
  rewrite !truediv_nonzero; [cbn [bind]; eexists; reflexivity | assumption |].
  now rewrite shape0_map.
Qed.

Lemma loop_any_threshold (thr thr' : Q) (groups : list (string * list (nat * Box)))
      (st st1 st' : LoopState) :
  foldM (body thr savedir) groups st = Ok st1 ->
  exists st1', foldM (body thr' savedir) groups st' = Ok st1'.
Proof.
  revert st st'. induction groups as [|g gs IH]; intros st st' H; cbn [foldM] in *.
  - eexists; reflexivity.
  - bind_inv H.
    destruct (loop_body_any_threshold thr thr' st v st' g Hv) as [st1' ->].
    cbn [bind]. eapply IH; eauto.
Qed.

(** X10. The threshold only shows in the [match] column: if [evaluate]
    returns with one threshold it returns with every threshold, with the
    same rows in the same order up to their [match] cell. *)
Theorem evaluate_any_threshold (ground_df : list Box) (thr thr' : Q) (average : bool)
        (res : EvaluationResult) :
  run ground_df root_dir thr savedir average = Ok res ->
  exists res',
    run ground_df root_dir thr' savedir average = Ok res' /\
    map erase_match (results res') = map erase_match (results res).
Proof.
  intros H.
  assert (Hex : exists res', run ground_df root_dir thr' savedir average = Ok res').
  { unfold run in *. unfold evaluate in *.
    destruct (check_file ground_df); [|discriminate].
    destruct (check_file predictions); [|discriminate]. cbn [bind] in *.
    bind_inv H. rename v into st. bind_inv H.
    destruct (loop_any_threshold thr thr' _ _ _ loop_init Hv) as [st' Hst'].
    unfold body in Hst'. rewrite Hst'. cbn [bind].
    apply loop_Ok in Hv. destruct Hv as (ts & HF & Hr & _).
    apply loop_Ok in Hst'. destruct Hst' as (ts' & HF' & Hr' & _).
    cbn [ls_results loop_init app] in Hr, Hr'.
    assert (Hts' : ts' <> []).
    { apply Forall2_length_eq in HF, HF'. intros ->.
      rewrite Hr in Hv0. cbn in HF'. rewrite HF' in HF.
      destruct ts; [discriminate | discriminate]. }
    rewrite Hr'. unfold pd_concat. destruct ts' as [|t ts']; [congruence|].
    cbn [bind]. rewrite compute_class_recall_closed. cbn [bind].
    eexists; reflexivity. }
  destruct Hex as [res' H']. exists res'. split; [exact H'|].
  symmetry. eapply evaluate_erase_match; eauto.
Qed.

(** X11. A stricter threshold never matches more: of two runs on the
    same tables, the one with the larger threshold has at most as many
    rows with [match == true]. *)
Theorem evaluate_matched_antitone (ground_df : list Box) (thr thr' : Q)
        (average average' : bool) (res res' : EvaluationResult) :
  (thr <= thr')%Q ->
  run ground_df root_dir thr savedir average = Ok res ->
  run ground_df root_dir thr' savedir average' = Ok res' ->
  count (fun r => cell_is_1 (match_ r)) (results res')
  <= count (fun r => cell_is_1 (match_ r)) (results res).
Proof.
  intros Hle H H'.
  apply evaluate_tables in H. destruct H as (tables & HF & -> & _).
  apply evaluate_tables in H'. destruct H' as (tables' & HF' & -> & _).
  apply Forall2_count_le.
  eapply Forall2_impl; [|exact (tables_rowwise _ _ _ _ _ HF HF')].
  intros r r' [_ [[_ Hn]|[Hm Hm']]] Hc; cbv beta in *.
  - rewrite Hn in Hc. discriminate.
  - rewrite Hm' in Hc. rewrite Hm. cbn [cell_is_1] in *.
    destruct (Qgtb (IoU r) thr') eqn:E; [|discriminate].
    now rewrite (Qgtb_antitone _ _ _ Hle E).
Qed.

(** X12. A row that counts as a true positive of the label-aware
    metrics is a matched row whenever the threshold is at most 0.4; so
    the true positives are then at most as many as the matched rows. *)
Theorem evaluate_true_positives_matched (ground_df : list Box) (thr : Q) (average : bool)
        (res : EvaluationResult) :
  (thr <= float_0_4)%Q ->
  run ground_df root_dir thr savedir average = Ok res ->
  Forall (fun r => correct_over_0_4 r = true -> match_ r = Some true) (results res)
  /\ count correct_over_0_4 (results res)
     <= count (fun r => cell_is_1 (match_ r)) (results res).
Proof.
  intros Hle H. apply evaluate_tables in H. destruct H as (tables & HF & -> & _).
  assert (G : Forall (fun r => correct_over_0_4 r = true -> match_ r = Some true)
                     (List.concat tables)).
  { apply Forall_forall. intros r Hr Hc.
    unfold correct_over_0_4 in Hc. apply andb_true_iff in Hc. destruct Hc as [Hc _].
    destruct (tables_rows _ _ _ _ _ _ _ _ r HF Hr) as [Hm | (_ & HI & _)].
    - rewrite Hm. f_equal. eapply Qgtb_antitone; eauto.
    - rewrite HI in Hc. discriminate. }
  split; [exact G|].
  apply count_le. intros r Hr Hc.
  rewrite (proj1 (Forall_forall _ _) G r Hr Hc). reflexivity.
Qed.

End ThresholdMore.

(* ================================================================== *)
(** ** More on the dataset evaluator: rows and averages *)

Lemma Forall2_In_r {A B : Type} (R : A -> B -> Prop) (l : list A) (l' : list B) (b : B) :
  Forall2 R l l' -> In b l' -> exists a, In a l /\ R a b.
Proof.
  induction 1 as [|x y xs ys Hxy _ IH]; [contradiction|].
  intros [<-|Hin]; [exists x; cbn; auto|].
  destruct (IH Hin) as [a [Ha HR]]. exists a. cbn. auto.
Qed.

Lemma indexed_In {A : Type} (df : list A) (t : nat * A) :
  In t (indexed df) -> In (snd t) df.
Proof. intros H. apply (in_map snd) in H. now rewrite indexed_rows in H. Qed.

Lemma image_groups_In (ground_df : list Box) (g : string * list (nat * Box)) :
  In g (image_groups ground_df) ->
  In (fst g) (map image_path ground_df) /\
  (forall t, In t (snd g) -> In (snd t) ground_df /\ image_path (snd t) = fst g).
Proof.
  destruct g as [k grp]. unfold image_groups. intros H.
  apply groupby_In in H. destruct H as [Hk ->]. cbn [fst snd]. split.
  - rewrite <- (map_map snd image_path), indexed_rows in Hk. exact Hk.
  - intros t Ht. apply filter_In in Ht. destruct Ht as [Ht Hp].
    split; [now apply indexed_In | now apply String.eqb_eq].
Qed.

Lemma sumQ_bounds (l : list Q) (acc : Q) :
  Forall (fun q => (0 <= q)%Q /\ (q <= 1)%Q) l ->
  (acc <= fold_left Qplus l acc)%Q /\
  (fold_left Qplus l acc <= acc + inject_Z (shape0 l))%Q.
Proof.
  intros H. revert acc. induction H as [|q qs [Hq0 Hq1] _ IH]; intros acc; cbn [fold_left].
  - split; [apply Qle_refl|]. unfold shape0. cbn. rewrite Qplus_0_r. apply Qle_refl.
  - destruct (IH (acc + q)%Q) as [IH1 IH2]. split.
    + eapply Qle_trans; [|exact IH1].
      rewrite <- (Qplus_0_r acc) at 1. apply Qplus_le_compat; [apply Qle_refl | exact Hq0].
    + eapply Qle_trans; [exact IH2|].
      unfold shape0. cbn [List.length]. rewrite Nat2Z.inj_succ, <- Z.add_1_l, inject_Z_plus.
      rewrite Qplus_assoc. apply Qplus_le_compat; [|apply Qle_refl].
      apply Qplus_le_compat; [apply Qle_refl | exact Hq1].
Qed.

(** The mean of numbers between 0 and 1 is a number between 0 and 1. *)
Lemma np_mean_unit_interval (l : list Q) :
  l <> [] ->
  Forall (fun q => (0 <= q)%Q /\ (q <= 1)%Q) l ->
  exists m, np_mean l = Fin m /\ (0 <= m)%Q /\ (m <= 1)%Q.
Proof.
  intros Hne H. destruct l as [|q qs]; [congruence|].
  eexists. split; [reflexivity|].
  destruct (sumQ_bounds (q :: qs) (inject_Z 0) H) as [H0 H1].
  fold (sumQ (q :: qs)) in H0, H1.
  assert (Hpos : (0 < inject_Z (shape0 (q :: qs)))%Q).
  { change 0%Q with (inject_Z 0). rewrite <- Zlt_Qlt. unfold shape0. cbn. lia. }
  split.
  - apply Qle_shift_div_l; [exact Hpos|]. now rewrite Qmult_0_l.
  - apply Qle_shift_div_r; [exact Hpos|]. rewrite Qmult_1_l.
    eapply Qle_trans; [exact H1|]. rewrite Qplus_0_l. apply Qle_refl.
Qed.

Section RowsAndAverages.

Variable compute_IoU : list Box -> list Box -> list IoURow.
Variable check_file : list Box -> pyresult unit.
Variable overlay_error : string -> option exn.
Variable predictions : list Box.
Variable root_dir : string.
Variable savedir : option string.

Let run := evaluate compute_IoU check_file overlay_error predictions.
Let table := image_table compute_IoU overlay_error predictions root_dir.

(** Where a row of an image's table comes from. *)
Lemma table_row_origin (thr : Q) (g : string * list (nat * Box)) (rows : list MatchRow)
      (r : MatchRow) :
  table thr savedir g rows -> In r rows ->
  (exists t, In t (snd g) /\ true_label r = label (snd t)) /\
  (if has_predictions predictions g
   then result_image_path r = Some (fst g) /\ match_ r = Some (Qgtb (IoU r) thr)
   else result_image_path r = None /\ match_ r = None).
Proof.
  subst table. unfold image_table.
  destruct (has_predictions predictions g).
  - intros [raw [Hraw ->]] Hin. apply in_map_iff in Hin.
    destruct Hin as [r0 [<- Hr0]]. split; [|split; reflexivity].
    apply evaluate_image_Ok in Hraw.
    destruct (Forall2_In_r _ _ _ _ Hraw Hr0) as [x [_ Hx]].
    apply attach_labels_Ok in Hx. destruct Hx as (_ & _ & _ & _ & b & Hb & Hl).
    apply nth_error_In in Hb. apply in_map_iff in Hb. destruct Hb as [t [<- Ht]].
    exists t. auto.
  - intros -> Hin. apply in_map_iff in Hin. destruct Hin as [t [<- Ht]].
    split; [exists t; auto | split; reflexivity].
Qed.

(** X13. The [image_path] column of the result: a row of an image with
    predictions carries the path of its image, a path of both tables,
    and a [match] cell; a row built for an image without predictions has
    no [image_path] and no [match] (the loop moves on before the path is
    written). *)
Theorem evaluate_image_path_column (ground_df : list Box) (thr : Q) (average : bool)
        (res : EvaluationResult) :
  run ground_df root_dir thr savedir average = Ok res ->
  Forall (fun r =>
            match result_image_path r with
            | Some path => In path (map image_path ground_df) /\
                           In path (map image_path predictions) /\
                           match_ r = Some (Qgtb (IoU r) thr)
            | None => match_ r = None
            end)
         (results res).
Proof.
  intros H. apply evaluate_tables in H. destruct H as (tables & HF & -> & _).
  apply Forall_forall. intros r Hr.
  destruct (Forall2_concat_In _ _ _ _ HF Hr) as (g & rows & Hg & Ht & Hin).
  destruct (table_row_origin _ _ _ _ Ht Hin) as [_ Hcase].
  apply image_groups_In in Hg. destruct Hg as [Hpath _].
  unfold has_predictions in Hcase.
  destruct (image_predictions_of predictions (fst g)) as [|p ps] eqn:Ep; cbn in Hcase.
  - destruct Hcase as [-> ->]. reflexivity.
  - destruct Hcase as [-> ->]. split; [exact Hpath|]. split; [|reflexivity].
    assert (Hp : In p (image_predictions_of predictions (fst g)))
      by (rewrite Ep; left; reflexivity).
    apply filter_In in Hp. destruct Hp as [Hp Hk].
    apply String.eqb_eq in Hk. rewrite <- Hk. now apply in_map.
Qed.

(** X14. Every class of the per-class table that [evaluate] returns is
    the label of a ground-truth row: a label that only predictions carry
    gets no row. *)
Theorem evaluate_class_labels (ground_df : list Box) (thr : Q) (average : bool)
        (res : EvaluationResult) (table0 : list ClassMetrics) :
  run ground_df root_dir thr savedir average = Ok res ->
  class_recall res = Some table0 ->
  forall c, In c (map cm_label table0) -> In c (map label ground_df).
Proof.
  intros H Hc c Hin.
  pose proof (evaluate_Ok _ _ _ _ _ _ _ _ _ _ H) as (st & _ & _ & _ & _ & _ & Hcr & _).
  rewrite Hc in Hcr. apply compute_class_recall_Some in Hcr. subst table0.
  rewrite map_map in Hin. cbn [class_row cm_label] in Hin. rewrite map_id in Hin.
  apply group_keys_In in Hin. apply in_map_iff in Hin. destruct Hin as [r [<- Hr]].
  apply filter_In in Hr. destruct Hr as [Hr _].
  apply evaluate_tables in H. destruct H as (tables & HF & Hres & _).
  rewrite Hres in Hr.
  destruct (Forall2_concat_In _ _ _ _ HF Hr) as (g & rows & Hg & Ht & Hrow).
  destruct (table_row_origin _ _ _ _ Ht Hrow) as [[t [Ht1 ->]] _].
  apply image_groups_In in Hg. destruct Hg as [_ Hg].
  apply in_map. now apply Hg.
Qed.

(** X15. [average] only selects how [box_precision] and [box_recall] are
    averaged: whether [evaluate] returns, the result table, the per-class
    table and the label-aware metrics are the same for both values. *)
Theorem evaluate_average_only_box (ground_df : list Box) (thr : Q) (average : bool)
        (res : EvaluationResult) :
  run ground_df root_dir thr savedir average = Ok res ->
  exists res',
    run ground_df root_dir thr savedir (negb average) = Ok res' /\
    results res' = results res /\
    class_recall res' = class_recall res /\
    overall_precision res' = overall_precision res /\
    overall_recall res' = overall_recall res.
Proof.
  unfold run, evaluate. intros H.
  destruct (check_file ground_df); [|discriminate].
  destruct (check_file predictions); [|discriminate]. cbn [bind] in *.
  destruct (foldM _ _ loop_init) as [st|]; [|discriminate]. cbn [bind] in *.
  destruct (pd_concat (ls_results st)) as [rows|]; [|discriminate]. cbn [bind] in *.
  destruct (compute_class_recall rows predictions) as [cr|]; [|discriminate].
  cbn [bind] in *. injection H as <-.
  eexists. split; [reflexivity|]. cbn. auto.
Qed.

(** X16. Whenever [evaluate] returns, [overall_recall] lies between 0 and
    1, [overall_precision] is not negative, and [box_recall] is a number
    between 0 and 1 (never [nan]), in micro and in macro mode. *)
Theorem evaluate_bounds (ground_df : list Box) (thr : Q) (average : bool)
        (res : EvaluationResult) :
  run ground_df root_dir thr savedir average = Ok res ->
  (0 <= overall_recall res)%Q /\ (overall_recall res <= 1)%Q /\
  (0 <= overall_precision res)%Q /\
  exists q, box_recall res = Fin q /\ (0 <= q)%Q /\ (q <= 1)%Q.
Proof.
  intros H.
  pose proof (evaluate_Ok _ _ _ _ _ _ _ _ _ _ H)
    as (st & Hloop & Hne & Hres & _ & Hbr & _ & Hop & Hor).
  cbn zeta in Hop, Hor. rewrite try_truediv in Hop, Hor.
  pose proof (count_bounds correct_over_0_4 (results res)) as HTP.
  assert (Hp : 0 <= shape0 predictions) by (unfold shape0; lia).
  replace (count correct_over_0_4 (results res)
           + (shape0 (results res) - count correct_over_0_4 (results res)))
    with (shape0 (results res)) in Hor by lia.
  replace (count correct_over_0_4 (results res)
           + (shape0 predictions - count correct_over_0_4 (results res)))
    with (shape0 predictions) in Hop by lia.
  assert (Hzero : (0 <= inject_Z 0)%Q /\ (inject_Z 0 <= 1)%Q)
    by (split; unfold Qle; cbn; lia).
  split; [|split; [|split]].
  - rewrite Hor. destruct (shape0 (results res) =? 0); [tauto|].
    now apply Qdiv_unit_interval.
  - rewrite Hor. destruct (shape0 (results res) =? 0); [tauto|].
    now apply Qdiv_unit_interval.
  - rewrite Hop. destruct (shape0 predictions =? 0); [tauto|].
    apply Qdiv_nonneg; lia.
  - rewrite Hbr. destruct average.
    + apply loop_Ok in Hloop. destruct Hloop as (tables & HF & Hr & Hrec & _).
      cbn [ls_results box_recalls loop_init app] in Hr, Hrec. rewrite Hrec.
      apply np_mean_unit_interval.
      * intros E. apply map_eq_nil in E. rewrite E in HF. inversion HF; subst.
        congruence.
      * apply Forall_forall. intros q Hq. apply in_map_iff in Hq.
        destruct Hq as [g [<- _]]. unfold image_recall.
        destruct (has_predictions predictions g); [|exact Hzero].
        apply Qdiv_unit_interval. apply count_bounds.
    + eexists. split; [reflexivity|].
      destruct (py_sum (map match_ (results res))) as [s|] eqn:Es; cbn [bind try_except];
        [|exact Hzero].
      rewrite try_truediv. destruct (shape0 (results res) =? 0); [exact Hzero|].
      apply py_sum_Ok in Es. subst s. rewrite count_map.
      apply Qdiv_unit_interval. apply count_bounds.
Qed.

(** X17. In macro mode [box_precision] is [nan] exactly when no image of
    the ground truth has a prediction. *)
Theorem evaluate_macro_precision_nan (ground_df : list Box) (thr : Q)
        (res : EvaluationResult) :
  run ground_df root_dir thr savedir true = Ok res ->
  (box_precision res = NaN <->
   forall b, In b ground_df -> image_predictions_of predictions (image_path b) = []).
Proof.
  intros H. apply evaluate_tables in H. destruct H as (tables & _ & _ & Hm).
  destruct (Hm eq_refl) as [_ ->]. clear Hm.
  assert (G : filter (has_predictions predictions) (image_groups ground_df) = [] <->
              forall b, In b ground_df ->
                        image_predictions_of predictions (image_path b) = []).
  { split.
    - intros E b Hb.
      assert (Hk : In (image_path b)
                      (group_keys (fun r => image_path (snd r)) (indexed ground_df))).
      { apply group_keys_In. rewrite <- (map_map snd image_path), indexed_rows.
        now apply in_map. }
      rewrite <- groupby_keys in Hk. apply in_map_iff in Hk.
      destruct Hk as [g [Hg1 Hg2]].
      destruct (has_predictions predictions g) eqn:Eh.
      + assert (Hin : In g (filter (has_predictions predictions) (image_groups ground_df)))
          by (apply filter_In; auto).
        rewrite E in Hin. contradiction.
      + unfold has_predictions in Eh. rewrite Hg1 in Eh.
        apply negb_false_iff in Eh. now apply empty_true.
    - intros Hall.
      destruct (filter (has_predictions predictions) (image_groups ground_df))
        as [|g gs] eqn:E; [reflexivity|].
      assert (Hin : In g (filter (has_predictions predictions) (image_groups ground_df)))
        by (rewrite E; left; reflexivity).
      apply filter_In in Hin. destruct Hin as [Hg Hh].
      apply image_groups_In in Hg. destruct Hg as [Hg _].
      apply in_map_iff in Hg. destruct Hg as [b [Hb1 Hb2]].
      unfold has_predictions in Hh. rewrite <- Hb1, (Hall b Hb2) in Hh. discriminate. }
  rewrite <- G.
  destruct (filter (has_predictions predictions) (image_groups ground_df));
    cbn [map np_mean]; split; intros E; try reflexivity; discriminate.
Qed.

End RowsAndAverages.

(* ================================================================== *)
(** ** Concrete runs of the further properties *)

Ltac run_it := vm_compute; reflexivity.

Lemma float_0_4_nonneg : (inject_Z 0 <= float_0_4)%Q.
Proof. unfold Qle, float_0_4. simpl. lia. Qed.

(** The pairing table of image A with two trees is kept as it is. *)
Lemma evaluate_image_keeps_pairs_witness :
  exists rows,
    evaluate_image positional_IoU no_image predictions_A2 truth_A2 "root" None = Ok rows /\
    map (fun r => (truth_id r, prediction_id r, IoU r)) rows
    = map (fun x => (iou_truth_id x, iou_prediction_id x, iou_IoU x))
          (positional_IoU truth_A2 predictions_A2)
    /\ Forall (fun r => match_ r = None /\ result_image_path r = None) rows.
Proof.
  eexists. split; [run_it|].
  apply (evaluate_image_keeps_pairs positional_IoU no_image predictions_A2 truth_A2
           "root" None).
  run_it.
Defined.

(** The labels of image A with two trees. *)
Lemma evaluate_image_labels_witness :
  exists rows,
    evaluate_image positional_IoU no_image predictions_A2 truth_A2 "root" None = Ok rows /\
    Forall (fun r =>
              nth_error (map label truth_A2) (truth_id r) = Some (true_label r) /\
              predicted_label r
              = match prediction_id r with
                | Some i => nth_error (map label predictions_A2) i
                | None => None
                end)
           rows.
Proof.
  eexists. split; [run_it|].
  apply (evaluate_image_labels positional_IoU no_image predictions_A2 truth_A2
           "root" None).
  run_it.
Defined.

(** A pairing table that names a third ground-truth row of a table of
    two. *)
Lemma evaluate_image_KeyError_witness :
  evaluate_image stray_IoU no_image predictions_A2 truth_A2 "root" None = Raise KeyError.
Proof.
  apply (evaluate_image_KeyError stray_IoU no_image predictions_A2 truth_A2
           "root" None "A.tif").
  - reflexivity.
  - discriminate.
  - apply Exists_cons_hd. unfold ids_in_range. cbn. lia.
Defined.

(** An overlay is asked for and there is no image to open. *)
Lemma evaluate_image_overlay_raises_witness :
  evaluate_image positional_IoU no_image predictions_A2 truth_A2 "root" (Some "out"%string)
  = Raise IOError.
Proof.
  apply (evaluate_image_overlay_raises positional_IoU no_image predictions_A2 truth_A2
           "root" (Some "out"%string) "A.tif" IOError).
  - reflexivity.
  - discriminate.
  - apply positional_IoU_ids_in_range.
  - reflexivity.
  - reflexivity.
Defined.

(** The predictions of image A against a ground truth without rows. *)
Lemma evaluate_image_without_ground_truth_witness :
  exists msg,
    evaluate_image stray_IoU no_image predictions_A2 [] "root" None
    = Raise (ValueError msg).
Proof.
  apply (evaluate_image_without_ground_truth stray_IoU no_image predictions_A2
           "root" None).
  reflexivity.
Defined.

(** The per-class table of [matched_rows_sample]: one class, two matched
    rows. *)
Lemma compute_class_recall_sorted_witness :
  exists table,
    compute_class_recall matched_rows_sample predictions_A2 = Ok (Some table) /\
    Sorted.Sorted (fun a b => String.leb a b = true) (map cm_label table).
Proof.
  eexists. split; [run_it|].
  apply (compute_class_recall_sorted matched_rows_sample predictions_A2).
  run_it.
Defined.

Lemma compute_class_recall_sizes_witness :
  exists table,
    compute_class_recall matched_rows_sample predictions_A2 = Ok (Some table) /\
    fold_right Z.add 0 (map cm_size table)
    = count (fun r => cell_is_1 (match_ r)) matched_rows_sample.
Proof.
  eexists. split; [run_it|].
  apply (compute_class_recall_sizes matched_rows_sample predictions_A2).
  run_it.
Defined.

Lemma compute_class_recall_bounds_witness :
  exists table,
    compute_class_recall matched_rows_sample predictions_A2 = Ok (Some table) /\
    Forall (fun m => (0 <= cm_recall m)%Q /\ (cm_recall m <= 1)%Q /\
                     (0 <= cm_precision m)%Q /\ 1 <= cm_size m)
           table.
Proof.
  eexists. split; [run_it|].
  apply (compute_class_recall_bounds matched_rows_sample predictions_A2).
  run_it.
Defined.

(** Images A and B with the thresholds 0.4 and 1. *)
Lemma evaluate_any_threshold_witness :
  exists res,
    evaluate positional_IoU accept_file no_image predictions_A truth_AB
             "root" float_0_4 None false = Ok res /\
    exists res',
      evaluate positional_IoU accept_file no_image predictions_A truth_AB
               "root" (inject_Z 1) None false = Ok res' /\
      map erase_match (results res') = map erase_match (results res).
Proof.
  eexists. split; [run_it|].
  apply (evaluate_any_threshold positional_IoU accept_file no_image predictions_A
           "root" None truth_AB float_0_4 (inject_Z 1) false).
  run_it.
Defined.

Lemma evaluate_matched_antitone_witness :
  exists res res',
    evaluate positional_IoU accept_file no_image predictions_A truth_AB
             "root" float_0_4 None false = Ok res /\
    evaluate positional_IoU accept_file no_image predictions_A truth_AB
             "root" (inject_Z 1) None false = Ok res' /\
    count (fun r => cell_is_1 (match_ r)) (results res')
    <= count (fun r => cell_is_1 (match_ r)) (results res).
Proof.
  do 2 eexists. split; [run_it|]. split; [run_it|].
  apply (evaluate_matched_antitone positional_IoU accept_file no_image predictions_A
           "root" None truth_AB float_0_4 (inject_Z 1) false false).
  - unfold Qle, float_0_4. simpl. lia.
  - run_it.
  - run_it.
Defined.

(** Image A with two trees and the threshold 0. *)
Lemma evaluate_true_positives_matched_witness :
  exists res,
    evaluate positional_IoU accept_file no_image predictions_A2 truth_A2
             "root" (inject_Z 0) None false = Ok res /\
    Forall (fun r => correct_over_0_4 r = true -> match_ r = Some true) (results res)
    /\ count correct_over_0_4 (results res)
       <= count (fun r => cell_is_1 (match_ r)) (results res).
Proof.
  eexists. split; [run_it|].
  apply (evaluate_true_positives_matched positional_IoU accept_file no_image predictions_A2
           "root" None truth_A2 (inject_Z 0) false).
  - exact float_0_4_nonneg.
  - run_it.
Defined.

(** Images A and B: the row of image B has no path. *)
Lemma evaluate_image_path_column_witness :
  exists res,
    evaluate positional_IoU accept_file no_image predictions_A truth_AB
             "root" float_0_4 None false = Ok res /\
    Forall (fun r =>
              match result_image_path r with
              | Some path => In path (map image_path truth_AB) /\
                             In path (map image_path predictions_A) /\
                             match_ r = Some (Qgtb (IoU r) float_0_4)
              | None => match_ r = None
              end)
           (results res).
Proof.
  eexists. split; [run_it|].
  apply (evaluate_image_path_column positional_IoU accept_file no_image predictions_A
           "root" None truth_AB float_0_4 false).
  run_it.
Defined.

(** Image A with a tree predicted as a shrub: "Shrub" gets no row. *)
Lemma evaluate_class_labels_witness :
  exists res table,
    evaluate positional_IoU accept_file no_image predictions_A2 truth_A2
             "root" float_0_4 None false = Ok res /\
    class_recall res = Some table /\
    forall c, In c (map cm_label table) -> In c (map label truth_A2).
Proof.
  do 2 eexists. split; [run_it|]. split; [run_it|].
  eapply (evaluate_class_labels positional_IoU accept_file no_image predictions_A2
            "root" None truth_A2 float_0_4 false); [run_it | run_it].
Defined.

Lemma evaluate_average_only_box_witness :
  exists res,
    evaluate positional_IoU accept_file no_image predictions_A truth_AB
             "root" float_0_4 None false = Ok res /\
    exists res',
      evaluate positional_IoU accept_file no_image predictions_A truth_AB
               "root" float_0_4 None (negb false) = Ok res' /\
      results res' = results res /\
      class_recall res' = class_recall res /\
      overall_precision res' = overall_precision res /\
      overall_recall res' = overall_recall res.
Proof.
  eexists. split; [run_it|].
  apply (evaluate_average_only_box positional_IoU accept_file no_image predictions_A
           "root" None truth_AB float_0_4 false).
  run_it.
Defined.

Lemma evaluate_bounds_witness :
  exists res,
    evaluate positional_IoU accept_file no_image predictions_A truth_AB
             "root" float_0_4 None true = Ok res /\
    (0 <= overall_recall res)%Q /\ (overall_recall res <= 1)%Q /\
    (0 <= overall_precision res)%Q /\
    exists q, box_recall res = Fin q /\ (0 <= q)%Q /\ (q <= 1)%Q.
Proof.
  eexists. split; [run_it|].
  apply (evaluate_bounds positional_IoU accept_file no_image predictions_A
           "root" None truth_AB float_0_4 true).
  run_it.
Defined.

(** Image B alone, without predictions: the macro precision is [nan]. *)
Lemma evaluate_macro_precision_nan_witness :
  exists res,
    evaluate positional_IoU accept_file no_image [] [box "B.tif" 0 0 10 10 "Tree"]
             "root" float_0_4 None true = Ok res /\
    (box_precision res = NaN <->
     forall b, In b [box "B.tif" 0 0 10 10 "Tree"] ->
               image_predictions_of [] (image_path b) = []).
Proof.
  eexists. split; [run_it|].
  apply (evaluate_macro_precision_nan positional_IoU accept_file no_image []
           "root" None [box "B.tif" 0 0 10 10 "Tree"] float_0_4).
  run_it.
Defined.

(** Image A with two trees, both predicted. *)
Lemma evaluate_micro_every_image_predicted_witness :
  exists res,
    evaluate positional_IoU accept_file no_image predictions_A2 truth_A2
             "root" float_0_4 None false = Ok res /\
    let matched := count (fun r => cell_is_1 (match_ r)) (results res) in
    0 < shape0 predictions_A2 /\
    0 < shape0 (results res) /\
    box_precision res
    = Fin (Qdiv (inject_Z matched) (inject_Z (shape0 predictions_A2))) /\
    box_recall res
    = Fin (Qdiv (inject_Z matched) (inject_Z (shape0 (results res)))).
Proof.
  eexists. split; [run_it|].
  apply (evaluate_micro_every_image_predicted positional_IoU accept_file no_image
           predictions_A2 "root" None truth_A2 float_0_4).
  - run_it.
  - apply Forall_forall. intros g Hg. vm_compute in Hg.
    destruct Hg as [<-|[]]. reflexivity.
Defined.

Lemma evaluate_without_ground_truth_witness :
  evaluate positional_IoU accept_file no_image predictions_A [] "root" float_0_4 None false
  = Raise (ValueError "No objects to concatenate").
Proof.
  apply (evaluate_without_ground_truth positional_IoU accept_file no_image predictions_A
           "root" None float_0_4 false); reflexivity.
Defined.

Lemma evaluate_returns_witness :
  exists res,
    evaluate positional_IoU accept_file no_image predictions_A truth_AB
             "root" float_0_4 None false = Ok res.
Proof.
  apply (evaluate_returns positional_IoU accept_file no_image predictions_A
           "root" float_0_4 None).
  - exact positional_IoU_length.
  - exact positional_IoU_ids_in_range.
  - discriminate.
  - reflexivity.
  - reflexivity.
  - discriminate.
Defined.

Lemma positional_IoU_names_each_once (ground_df predictions : list Box) :
  Permutation (map iou_truth_id (positional_IoU ground_df predictions))
              (seq 0 (List.length ground_df)).
Proof. rewrite positional_IoU_truth_ids. apply Permutation_refl. Qed.

Lemma evaluate_true_labels_witness :
  exists res,
    evaluate positional_IoU accept_file no_image predictions_A truth_AB
             "root" float_0_4 None false = Ok res /\
    Permutation (map true_label (results res)) (map label truth_AB).
Proof.
  eexists. split; [run_it|].
  apply (evaluate_true_labels positional_IoU accept_file no_image predictions_A
           "root" None positional_IoU_names_each_once truth_AB float_0_4 false).
  run_it.
Defined.

(* ================================================================== *)
(** ** Label-aware metrics against box metrics *)

Lemma Qdiv_le_mono (a b c : Z) :
  a <= b -> 0 <= c ->
  (Qdiv (inject_Z a) (inject_Z c) <= Qdiv (inject_Z b) (inject_Z c))%Q.
Proof.
  intros Hab Hc. unfold Qdiv. apply Qmult_le_compat_r.
  - rewrite <- Zle_Qle. exact Hab.
  - apply Qinv_le_0_compat. change 0%Q with (inject_Z 0). rewrite <- Zle_Qle. exact Hc.
Qed.

Section OverallAgainstBox.

Variable compute_IoU : list Box -> list Box -> list IoURow.
Variable check_file : list Box -> pyresult unit.
Variable overlay_error : string -> option exn.
Variable predictions : list Box.
Variable root_dir : string.
Variable savedir : option string.

Let run := evaluate compute_IoU check_file overlay_error predictions.

(** X23. Asking for the right label can only lower the score: in micro
    mode, when every image of the ground truth has a prediction and the
    threshold is at most 0.4, [overall_precision] is at most
    [box_precision] and [overall_recall] is at most [box_recall]. *)
Theorem evaluate_overall_le_box (ground_df : list Box) (thr : Q) (res : EvaluationResult) :
  (thr <= float_0_4)%Q ->
  Forall (fun g => has_predictions predictions g = true) (image_groups ground_df) ->
  run ground_df root_dir thr savedir false = Ok res ->
  exists p r,
    box_precision res = Fin p /\ box_recall res = Fin r /\
    (overall_precision res <= p)%Q /\ (overall_recall res <= r)%Q.
Proof.
  intros Hle HP H. unfold run in H.
  pose proof (evaluate_Ok _ _ _ _ _ _ _ _ _ _ H)
    as (st & _ & _ & _ & Hbp & Hbr & _ & Hop & Hor).
  pose proof (evaluate_tables _ _ _ _ _ _ _ _ _ _ H) as (tables & HF & Hres & _).
  cbn zeta in Hop, Hor. rewrite try_truediv in Hop, Hor.
  set (TP := count correct_over_0_4 (results res)) in *.
  set (M := count (fun r => cell_is_1 (match_ r)) (results res)).
  assert (HM : py_sum (map match_ (results res)) = Ok M).
  { rewrite py_sum_all_Some; [subst M; now rewrite count_map|].
    rewrite Hres. eapply predicted_tables_cells; eauto. }
  rewrite HM in Hbp, Hbr. cbn [bind] in Hbp, Hbr. rewrite try_truediv in Hbp, Hbr.
  assert (HTM : TP <= M).
  { subst TP M. apply count_le. intros r Hr Hc.
    unfold correct_over_0_4 in Hc. apply andb_true_iff in Hc. destruct Hc as [Hc _].
    rewrite Hres in Hr.
    destruct (tables_rows _ _ _ _ _ _ _ _ r HF Hr) as [Hm | (_ & HI & _)].
    - rewrite Hm. cbn [cell_is_1]. now rewrite (Qgtb_antitone _ _ _ Hle Hc).
    - rewrite HI in Hc. discriminate. }
  replace (TP + (shape0 predictions - TP)) with (shape0 predictions) in Hop by lia.
  replace (TP + (shape0 (results res) - TP)) with (shape0 (results res)) in Hor by lia.
  do 2 eexists. split; [exact Hbp|]. split; [exact Hbr|].
  rewrite Hop, Hor. split.
  - destruct (shape0 predictions =? 0); [apply Qle_refl|].
    apply Qdiv_le_mono; [exact HTM | unfold shape0; lia].
  - destruct (shape0 (results res) =? 0); [apply Qle_refl|].
    apply Qdiv_le_mono; [exact HTM | unfold shape0; lia].
Qed.

End OverallAgainstBox.

(** Image A with two trees, one of them predicted as a shrub: both rows
    are matched and one is a true positive. *)
Lemma evaluate_overall_le_box_witness :
  exists res,
    evaluate positional_IoU accept_file no_image predictions_A2 truth_A2
             "root" float_0_4 None false = Ok res /\
    exists p r,
      box_precision res = Fin p /\ box_recall res = Fin r /\
      (overall_precision res <= p)%Q /\ (overall_recall res <= r)%Q.
Proof.
  eexists. split; [run_it|].
  apply (evaluate_overall_le_box positional_IoU accept_file no_image predictions_A2
           "root" None truth_A2 float_0_4).
  - apply Qle_refl.
  - apply Forall_forall. intros g Hg. vm_compute in Hg.
    destruct Hg as [<-|[]]. reflexivity.
  - run_it.
Defined.

(** Images A and B: the row of image A stands for the first ground-truth
    row, the row built for image B for the second. *)
Lemma evaluate_truth_rows_once_witness :
  exists res,
    evaluate positional_IoU accept_file no_image predictions_A truth_AB
             "root" float_0_4 None false = Ok res /\
    shape0 (results res)
    = fold_right Z.add 0 (map (fun g => shape0 (snd g)) (image_groups truth_AB)) /\
    shape0 (results res) = shape0 truth_AB /\
    exists truths : list (nat * Box),
      Permutation truths (indexed truth_AB) /\
      Forall2 (stands_for (indexed truth_AB)) truths (results res).
Proof.
  eexists. split; [run_it|].
  apply (evaluate_truth_rows_once positional_IoU accept_file no_image predictions_A
           "root" None positional_IoU_names_each_once truth_AB float_0_4 false).
  run_it.
Defined.
